(** * Role, client and secret reconciliation of the Keycloak client controller

    A shallow embedding of
    [pkg/controller/keycloakclient/keycloakclient_reconciler.go] and the
    properties of the action list it computes.

    Go packages are rendered as modules ([kc] for the API types of
    [pkg/apis/keycloak/v1alpha1], [common] for the action types of
    [pkg/common]); the functions of package [keycloakclient] follow at top
    level.  Slices are lists, Go maps are [gmap]s, pointers that may be [nil]
    are options, and the [*DesiredClusterState] that the methods append to is
    threaded through explicitly. *)

From stdpp Require Import base tactics option strings list gmap.

Local Open Scope string_scope.
Local Open Scope list_scope.

(** ** Package [v1alpha1] (imported as [kc]) *)

Module kc.

(** Modelled from the spec: the declaration of [kc.RoleRepresentation] is not
    in the reconciler's file.  The reconciler reads the fields [ID] (which may
    be the empty string) and [Name]; every other field is carried along by
    [DeepCopy] untouched and is left out. *)
Record RoleRepresentation : Type := {
  ID : string;
  Name : string
}.

#[global] Instance RoleRepresentation_eq_dec : EqDecision RoleRepresentation.
Proof. solve_decision. Defined.

(** The zero value of the struct, which indexing a Go map at a missing key
    returns. *)
Definition zeroRole : RoleRepresentation := {| ID := ""; Name := "" |}.

(** [role.DeepCopy()]: a fresh copy, equal as a value. *)
Definition DeepCopy (role : RoleRepresentation) : RoleRepresentation := role.

(** Modelled from the spec: of [kc.KeycloakAPIClient] only [ClientID] is read
    (for the messages). *)
Record KeycloakAPIClient : Type := {
  ClientID : string
}.

#[global] Instance KeycloakAPIClient_eq_dec : EqDecision KeycloakAPIClient.
Proof. solve_decision. Defined.

Record KeycloakClientSpec : Type := {
  Client : KeycloakAPIClient;
  Roles : list RoleRepresentation
}.

#[global] Instance KeycloakClientSpec_eq_dec : EqDecision KeycloakClientSpec.
Proof. solve_decision. Defined.

(** Modelled from the spec: the custom resource with the fields the
    reconciler reads.  [DeletionTimestamp] is a pointer; only whether it is
    [nil] is inspected, the time itself is kept as seconds. *)
Record KeycloakClient : Type := {
  Namespace : string;
  DeletionTimestamp : option Z;
  Spec : KeycloakClientSpec
}.

#[global] Instance KeycloakClient_eq_dec : EqDecision KeycloakClient.
Proof. solve_decision. Defined.

End kc.

(** ** Package [common] *)

Module common.

(** Modelled from the spec: the observed state.  [Client] and [ClientSecret]
    are pointers ([None] is [nil]); [Realm] is the realm name that the
    reconciler reaches as [state.Realm.Spec.Realm.Realm], the realm being
    present.  The type of Kubernetes secrets is a parameter. *)
Record ClientState (Secret : Type) : Type := {
  Client : option kc.KeycloakAPIClient;
  ClientSecret : option Secret;
  Realm : string;
  Roles : list kc.RoleRepresentation
}.

Arguments Client {Secret} _.
Arguments ClientSecret {Secret} _.
Arguments Realm {Secret} _.
Arguments Roles {Secret} _.

(** Modelled from the spec: the action structs that the reconciler builds,
    one constructor per struct, with the fields the reconciler sets. *)
Inductive ClusterAction (Secret : Type) : Type :=
  | PingAction (Msg : string)
  | CreateClientAction (Ref : kc.KeycloakClient) (Realm Msg : string)
  | UpdateClientAction (Ref : kc.KeycloakClient) (Realm Msg : string)
  | DeleteClientAction (Ref : kc.KeycloakClient) (Realm Msg : string)
  | GenericCreateAction (Ref : Secret) (Msg : string)
  | GenericUpdateAction (Ref : Secret) (Msg : string)
  | CreateClientRoleAction
      (Role : kc.RoleRepresentation) (Ref : kc.KeycloakClient) (Realm Msg : string)
  | UpdateClientRoleAction
      (Role OldRole : kc.RoleRepresentation) (Ref : kc.KeycloakClient)
      (Realm Msg : string)
  | DeleteClientRoleAction
      (Role : kc.RoleRepresentation) (Ref : kc.KeycloakClient) (Realm Msg : string).

Arguments PingAction {Secret} _.
Arguments CreateClientAction {Secret} _ _ _.
Arguments UpdateClientAction {Secret} _ _ _.
Arguments DeleteClientAction {Secret} _ _ _.
Arguments GenericCreateAction {Secret} _ _.
Arguments GenericUpdateAction {Secret} _ _.
Arguments CreateClientRoleAction {Secret} _ _ _ _.
Arguments UpdateClientRoleAction {Secret} _ _ _ _ _.
Arguments DeleteClientRoleAction {Secret} _ _ _ _.

(** Modelled from the spec: the result is an ordered sequence of actions and
    [AddAction] appends one action to it. *)
Abbreviation DesiredClusterState Secret := (list (ClusterAction Secret)).

Definition AddAction {Secret : Type}
    (d : DesiredClusterState Secret) (action : ClusterAction Secret) :
    DesiredClusterState Secret :=
  d ++ [action].

End common.

(** ** Package [keycloakclient]: the matcher *)

Definition roleMatches (a b : kc.RoleRepresentation) : bool :=
  if bool_decide (kc.ID a ≠ "") && bool_decide (kc.ID b ≠ "")
  then bool_decide (kc.ID a = kc.ID b)
  else bool_decide (kc.Name a = kc.Name b).

Fixpoint hasMatchingRole
    (roles : list kc.RoleRepresentation) (otherRole : kc.RoleRepresentation) : bool :=
  match roles with
  | [] => false
  | role :: roles' =>
      if roleMatches role otherRole then true else hasMatchingRole roles' otherRole
  end.

(** One iteration of the loop of [roleDifferenceIntersection] on the pair of
    result slices [(d, i)]. *)
Definition roleDifferenceIntersection_step (b : list kc.RoleRepresentation)
    (di : list kc.RoleRepresentation * list kc.RoleRepresentation)
    (role : kc.RoleRepresentation) :
    list kc.RoleRepresentation * list kc.RoleRepresentation :=
  if hasMatchingRole b role then (di.1, di.2 ++ [role]) else (di.1 ++ [role], di.2).

Definition roleDifferenceIntersection (a b : list kc.RoleRepresentation) :
    list kc.RoleRepresentation * list kc.RoleRepresentation :=
  foldl (roleDifferenceIntersection_step b) ([], []) a.

(** ** Package [keycloakclient]: the reconciler *)

Section Reconciler.

(** The secrets of the cluster and the two constructors of package [model]
    that build the secret an action refers to are parameters.  The receiver
    [i *KeycloakClientReconciler] is never read and is left out. *)
Context {Secret : Type}.
Variable model_ClientSecret : kc.KeycloakClient → Secret.
Variable model_ClientSecretReconciled : kc.KeycloakClient → option Secret → Secret.

Abbreviation ClientState := (common.ClientState Secret).
Abbreviation ClusterAction := (common.ClusterAction Secret).
Abbreviation DesiredClusterState := (common.DesiredClusterState Secret).

(** [cr.Namespace/cr.Spec.Client.ClientID], as [fmt.Sprintf] prints it. *)
Definition clientPath (cr : kc.KeycloakClient) : string :=
  kc.Namespace cr +:+ "/" +:+ kc.ClientID (kc.Client (kc.Spec cr)).

Definition pingKeycloak : ClusterAction :=
  common.PingAction "check if keycloak is available".

Definition getDeletedClientState (state : ClientState) (cr : kc.KeycloakClient) :
    ClusterAction :=
  common.DeleteClientAction cr (common.Realm state) ("removing client " +:+ clientPath cr).

Definition getCreatedClientState (state : ClientState) (cr : kc.KeycloakClient) :
    ClusterAction :=
  common.CreateClientAction cr (common.Realm state) ("create client " +:+ clientPath cr).

Definition getUpdatedClientSecretState (state : ClientState) (cr : kc.KeycloakClient) :
    ClusterAction :=
  common.GenericUpdateAction
    (model_ClientSecretReconciled cr (common.ClientSecret state))
    ("update client secret " +:+ clientPath cr).

Definition getUpdatedClientState (state : ClientState) (cr : kc.KeycloakClient) :
    ClusterAction :=
  common.UpdateClientAction cr (common.Realm state) ("update client " +:+ clientPath cr).

Definition getCreatedClientSecretState (state : ClientState) (cr : kc.KeycloakClient) :
    ClusterAction :=
  common.GenericCreateAction (model_ClientSecret cr)
    ("create client secret " +:+ clientPath cr).

Definition getCreatedClientRoleState (state : ClientState) (cr : kc.KeycloakClient)
    (role : kc.RoleRepresentation) : ClusterAction :=
  common.CreateClientRoleAction role cr (common.Realm state)
    ("create client role " +:+ clientPath cr +:+ "/" +:+ kc.Name role).

Definition getUpdatedClientRoleState (state : ClientState) (cr : kc.KeycloakClient)
    (role oldRole : kc.RoleRepresentation) : ClusterAction :=
  common.UpdateClientRoleAction role oldRole cr (common.Realm state)
    ("update client role " +:+ clientPath cr +:+ "/" +:+ kc.Name oldRole).

Definition getDeletedClientRoleState (state : ClientState) (cr : kc.KeycloakClient)
    (role : kc.RoleRepresentation) : ClusterAction :=
  common.DeleteClientRoleAction role cr (common.Realm state)
    ("delete client role " +:+ clientPath cr +:+ "/" +:+ kc.Name role).

(** The map [existingRoleByID] after the loop over [state.Roles]: a later
    role overwrites an earlier one with the same [ID]. *)
Definition existingRoleByID (roles : list kc.RoleRepresentation) :
    gmap string kc.RoleRepresentation :=
  foldl (λ m role, <[kc.ID role := role]> m) ∅ roles.

(** [existingRoleByID[id]]: the zero value when the key is missing. *)
Definition indexRole (m : gmap string kc.RoleRepresentation) (id : string) :
    kc.RoleRepresentation :=
  default kc.zeroRole (m !! id).

(** Body of the first loop: one delete action per role of [rolesDeleted]. *)
Definition deleteStep (state : ClientState) (cr : kc.KeycloakClient)
    (desired : DesiredClusterState) (role : kc.RoleRepresentation) :
    DesiredClusterState :=
  common.AddAction desired (getDeletedClientRoleState state cr (kc.DeepCopy role)).

(** Body of the loop over [rolesMatching] that handles the roles with an
    [ID]; the state is the action list and the map [renamedRolesOldNames]. *)
Definition updateStep (state : ClientState) (cr : kc.KeycloakClient)
    (existing : gmap string kc.RoleRepresentation)
    (acc : DesiredClusterState * gmap string bool) (role : kc.RoleRepresentation) :
    DesiredClusterState * gmap string bool :=
  if bool_decide (kc.ID role ≠ "") then
    let oldRole := indexRole existing (kc.ID role) in
    let desired :=
      common.AddAction acc.1
        (getUpdatedClientRoleState state cr (kc.DeepCopy role) (kc.DeepCopy oldRole)) in
    if bool_decide (kc.Name role ≠ kc.Name oldRole)
    then (desired, <[kc.Name oldRole := true]> acc.2)
    else (desired, acc.2)
  else acc.

(** Body of the loop over [rolesMatching] that handles the roles without an
    [ID]; [contains] is the second result of indexing the map. *)
Definition recreateStep (state : ClientState) (cr : kc.KeycloakClient)
    (renamedRolesOldNames : gmap string bool)
    (desired : DesiredClusterState) (role : kc.RoleRepresentation) :
    DesiredClusterState :=
  if bool_decide (kc.ID role = "") then
    let contains := bool_decide (is_Some (renamedRolesOldNames !! kc.Name role)) in
    if contains
    then common.AddAction desired (getCreatedClientRoleState state cr (kc.DeepCopy role))
    else
      common.AddAction desired
        (getUpdatedClientRoleState state cr (kc.DeepCopy role) (kc.DeepCopy role))
  else desired.

(** Body of the last loop: one create action per role of [rolesNew]. *)
Definition createStep (state : ClientState) (cr : kc.KeycloakClient)
    (desired : DesiredClusterState) (role : kc.RoleRepresentation) :
    DesiredClusterState :=
  common.AddAction desired (getCreatedClientRoleState state cr (kc.DeepCopy role)).

(** [ReconcileRoles] appends to [*desired]; the updated list is returned. *)
Definition ReconcileRoles (state : ClientState) (cr : kc.KeycloakClient)
    (desired : DesiredClusterState) : DesiredClusterState :=
  let rolesDeleted :=
    (roleDifferenceIntersection (common.Roles state) (kc.Roles (kc.Spec cr))).1 in
  let desired := foldl (deleteStep state cr) desired rolesDeleted in
  let existing := existingRoleByID (common.Roles state) in
  let rolesMatching :=
    (roleDifferenceIntersection (kc.Roles (kc.Spec cr)) (common.Roles state)).2 in
  let '(desired, renamedRolesOldNames) :=
    foldl (updateStep state cr existing) (desired, ∅) rolesMatching in
  let desired := foldl (recreateStep state cr renamedRolesOldNames) desired rolesMatching in
  let rolesNew :=
    (roleDifferenceIntersection (kc.Roles (kc.Spec cr)) (common.Roles state)).1 in
  foldl (createStep state cr) desired rolesNew.

Definition Reconcile (state : ClientState) (cr : kc.KeycloakClient) :
    DesiredClusterState :=
  let desired : DesiredClusterState := [] in
  let desired := common.AddAction desired pingKeycloak in
  match kc.DeletionTimestamp cr with
  | Some _ => common.AddAction desired (getDeletedClientState state cr)
  | None =>
      let desired :=
        match common.Client state with
        | None => common.AddAction desired (getCreatedClientState state cr)
        | Some _ => common.AddAction desired (getUpdatedClientState state cr)
        end in
      let desired :=
        match common.ClientSecret state with
        | None => common.AddAction desired (getCreatedClientSecretState state cr)
        | Some _ => common.AddAction desired (getUpdatedClientSecretState state cr)
        end in
      ReconcileRoles state cr desired
  end.

End Reconciler.

(** ** Observations on actions and on the role collections *)

Section Observations.

Context {Secret : Type}.

Abbreviation ClusterAction := (common.ClusterAction Secret).

(** The role of a [DeleteClientRoleAction]. *)
Definition deletedRole (a : ClusterAction) : option kc.RoleRepresentation :=
  match a with
  | common.DeleteClientRoleAction role _ _ _ => Some role
  | _ => None
  end.

(** The role of a [CreateClientRoleAction]. *)
Definition createdRole (a : ClusterAction) : option kc.RoleRepresentation :=
  match a with
  | common.CreateClientRoleAction role _ _ _ => Some role
  | _ => None
  end.

(** [Role] and [OldRole] of an [UpdateClientRoleAction]. *)
Definition updatedRole (a : ClusterAction) :
    option (kc.RoleRepresentation * kc.RoleRepresentation) :=
  match a with
  | common.UpdateClientRoleAction role oldRole _ _ _ => Some (role, oldRole)
  | _ => None
  end.

(** The new payload of a create or update action for a role. *)
Definition newRole (a : ClusterAction) : option kc.RoleRepresentation :=
  match a with
  | common.CreateClientRoleAction role _ _ _ => Some role
  | common.UpdateClientRoleAction role _ _ _ _ => Some role
  | _ => None
  end.

(** The roles an action carries, in any field. *)
Definition rolesOf (a : ClusterAction) : list kc.RoleRepresentation :=
  match a with
  | common.CreateClientRoleAction role _ _ _ => [role]
  | common.UpdateClientRoleAction role oldRole _ _ _ => [role; oldRole]
  | common.DeleteClientRoleAction role _ _ _ => [role]
  | _ => []
  end.

Definition isPing (a : ClusterAction) : bool :=
  match a with common.PingAction _ => true | _ => false end.

(** Actions on the parent client. *)
Definition isClientAction (a : ClusterAction) : bool :=
  match a with
  | common.CreateClientAction _ _ _
  | common.UpdateClientAction _ _ _
  | common.DeleteClientAction _ _ _ => true
  | _ => false
  end.

(** Actions on the client secret. *)
Definition isSecretAction (a : ClusterAction) : bool :=
  match a with
  | common.GenericCreateAction _ _ | common.GenericUpdateAction _ _ => true
  | _ => false
  end.

Definition isRoleAction (a : ClusterAction) : bool :=
  match a with
  | common.CreateClientRoleAction _ _ _ _
  | common.UpdateClientRoleAction _ _ _ _ _
  | common.DeleteClientRoleAction _ _ _ _ => true
  | _ => false
  end.

(** The role actions of one pass: what [ReconcileRoles] appends. *)
Definition roleActions (state : common.ClientState Secret) (cr : kc.KeycloakClient) :
    list ClusterAction :=
  ReconcileRoles state cr [].

(** The map [renamedRolesOldNames] when the loop over the roles with an [ID]
    has finished. *)
Definition renamedRolesOldNames (state : common.ClientState Secret)
    (cr : kc.KeycloakClient) : gmap string bool :=
  (foldl (updateStep state cr (existingRoleByID (common.Roles state))) ([], ∅)
     (roleDifferenceIntersection (kc.Roles (kc.Spec cr)) (common.Roles state)).2).2.

End Observations.

(** Number of occurrences of a role in a list of roles. *)
Definition occurrences (r : kc.RoleRepresentation) (l : list kc.RoleRepresentation) : nat :=
  length (filter (λ x, x = r) l).

(** Number of actions of a kind. *)
Definition countActions {Secret : Type} (p : common.ClusterAction Secret → bool)
    (l : list (common.ClusterAction Secret)) : nat :=
  length (filter (λ a, p a) l).

(** The rule of the specification's matcher: decided by [ID] when both roles
    carry one, by [Name] otherwise. *)
Definition matchRule (a b : kc.RoleRepresentation) : Prop :=
  (kc.ID a ≠ "" ∧ kc.ID b ≠ "" ∧ kc.ID a = kc.ID b) ∨
  ((kc.ID a = "" ∨ kc.ID b = "") ∧ kc.Name a = kc.Name b).

(** ** The loops as list functions

    The action lists that the four loops of [ReconcileRoles] append, written
    as maps over the partitions; [ReconcileRoles_unfold] relates them to the
    loops. *)

Section LoopResults.

Context {Secret : Type}.
Implicit Types (state : common.ClientState Secret) (cr : kc.KeycloakClient).

Definition updateActions state cr (existing : gmap string kc.RoleRepresentation)
    (l : list kc.RoleRepresentation) : list (common.ClusterAction Secret) :=
  l ≫= λ role,
    if bool_decide (kc.ID role ≠ "")
    then [getUpdatedClientRoleState state cr role (indexRole existing (kc.ID role))]
    else [].

Definition recreateActions state cr (renamed : gmap string bool)
    (l : list kc.RoleRepresentation) : list (common.ClusterAction Secret) :=
  l ≫= λ role,
    if bool_decide (kc.ID role = "")
    then
      if bool_decide (is_Some (renamed !! kc.Name role))
      then [getCreatedClientRoleState state cr role]
      else [getUpdatedClientRoleState state cr role role]
    else [].

(** The updates in place of all desired roles: from the indexed role for
    the roles with an [ID], then self-paired for the roles without one. *)
Definition inPlaceUpdates state cr : list (common.ClusterAction Secret) :=
  ((λ d, getUpdatedClientRoleState state cr d
           (indexRole (existingRoleByID (common.Roles state)) (kc.ID d))) <$>
     filter (λ d, kc.ID d ≠ "") (kc.Roles (kc.Spec cr))) ++
  ((λ d, getUpdatedClientRoleState state cr d d) <$>
     filter (λ d, kc.ID d = "") (kc.Roles (kc.Spec cr))).

End LoopResults.

(** ** Sample inputs

    Concrete roles, resources and states on which the properties below are
    exercised.  The sample cluster has no secret data: its secrets are
    [unit]. *)

Definition mkRole (id name : string) : kc.RoleRepresentation :=
  {| kc.ID := id; kc.Name := name |}.

Definition sampleClient (deletion : option Z) (roles : list kc.RoleRepresentation) :
    kc.KeycloakClient :=
  {| kc.Namespace := "keycloak";
     kc.DeletionTimestamp := deletion;
     kc.Spec := {| kc.Client := {| kc.ClientID := "web" |}; kc.Roles := roles |} |}.

Definition sampleState (client : option kc.KeycloakAPIClient) (secret : option unit)
    (roles : list kc.RoleRepresentation) : common.ClientState unit :=
  {| common.Client := client;
     common.ClientSecret := secret;
     common.Realm := "main";
     common.Roles := roles |}.

Definition sampleSecret (cr : kc.KeycloakClient) : unit := tt.

Definition sampleSecretReconciled (cr : kc.KeycloakClient) (current : option unit) : unit :=
  tt.

(** The observed state of the examples: the single role [{1, a}]. *)
Definition observedA : common.ClientState unit :=
  sampleState (Some {| kc.ClientID := "web" |}) (Some tt) [mkRole "1" "a"].

(** The role is renamed to [b]. *)
Definition renameClient : kc.KeycloakClient := sampleClient None [mkRole "1" "b"].

(** The role is renamed to [b] and a new role takes the name [a]. *)
Definition renameReuseClient : kc.KeycloakClient :=
  sampleClient None [mkRole "1" "b"; mkRole "" "a"].

(** A role with another [ID] takes the name [a]. *)
Definition collisionClient : kc.KeycloakClient := sampleClient None [mkRole "2" "a"].

(** The desired roles are the observed ones. *)
Definition unchangedClient : kc.KeycloakClient := sampleClient None [mkRole "1" "a"].

(** ** Further observations and sample inputs *)

(** [Ref] of an action on the client or on one of its roles. *)
Definition clientRef {Secret : Type} (a : common.ClusterAction Secret) :
    option kc.KeycloakClient :=
  match a with
  | common.CreateClientAction ref _ _
  | common.UpdateClientAction ref _ _
  | common.DeleteClientAction ref _ _
  | common.CreateClientRoleAction _ ref _ _
  | common.UpdateClientRoleAction _ _ ref _ _
  | common.DeleteClientRoleAction _ ref _ _ => Some ref
  | _ => None
  end.

(** [Realm] of an action on the client or on one of its roles. *)
Definition actionRealm {Secret : Type} (a : common.ClusterAction Secret) : option string :=
  match a with
  | common.CreateClientAction _ realm _
  | common.UpdateClientAction _ realm _
  | common.DeleteClientAction _ realm _
  | common.CreateClientRoleAction _ _ realm _
  | common.UpdateClientRoleAction _ _ _ realm _
  | common.DeleteClientRoleAction _ _ realm _ => Some realm
  | _ => None
  end.




(** ** The matcher *)

Lemma roleMatches_rule a b : roleMatches a b = true ↔ matchRule a b.
Proof.
  unfold roleMatches, matchRule.
  destruct (decide (kc.ID a = "")) as [Ha | Ha];
    destruct (decide (kc.ID b = "")) as [Hb | Hb];
    repeat (first [ rewrite bool_decide_eq_true_2 by done
                  | rewrite bool_decide_eq_false_2 by (intros ?; done) ]);
    simpl; rewrite bool_decide_eq_true; intuition congruence.
Qed.

Lemma roleMatches_refl a : roleMatches a a = true.
Proof.
  apply roleMatches_rule. unfold matchRule.
  destruct (decide (kc.ID a = "")); [right | left]; intuition.
Qed.

Lemma hasMatchingRole_true roles r :
  hasMatchingRole roles r = true ↔ ∃ x, x ∈ roles ∧ roleMatches x r = true.
Proof.
  induction roles as [| x roles IH]; simpl.
  - split; [done | intros (x & Hx & _); by apply elem_of_nil in Hx].
  - destruct (roleMatches x r) eqn:Hm.
    + split; [intros _; exists x; split; [left | done] | done].
    + rewrite IH. split.
      * intros (y & Hy & Hmy). exists y. split; [by right | done].
      * intros (y & Hy & Hmy). apply elem_of_cons in Hy as [-> | Hy]; [congruence |].
        by exists y.
Qed.

Lemma hasMatchingRole_false roles r :
  hasMatchingRole roles r = false ↔ ∀ x, x ∈ roles → roleMatches x r = false.
Proof.
  rewrite <- not_true_iff_false, hasMatchingRole_true. split.
  - intros H x Hx. apply not_true_iff_false. intros Hm. apply H. by exists x.
  - intros H (x & Hx & Hm). rewrite (H x Hx) in Hm. done.
Qed.

Lemma hasMatchingRole_self roles r : r ∈ roles → hasMatchingRole roles r = true.
Proof. intros Hr. apply hasMatchingRole_true. exists r. split; [done | apply roleMatches_refl]. Qed.

(** The partition computed by the loop is the pair of the two filters. *)
Lemma roleDifferenceIntersection_foldl b a d i :
  foldl (roleDifferenceIntersection_step b) (d, i) a =
  (d ++ filter (λ r, ¬ hasMatchingRole b r) a, i ++ filter (λ r, hasMatchingRole b r) a).
Proof.
  revert d i. induction a as [| r a IH]; intros d i.
  - simpl. by rewrite !app_nil_r.
  - cbn [foldl].
    destruct (roleDifferenceIntersection_step b (d, i) r) as [d' i'] eqn:Hstep.
    rewrite IH. unfold roleDifferenceIntersection_step in Hstep. simpl in Hstep.
    destruct (hasMatchingRole b r) eqn:Hm; simplify_eq.
    + rewrite (filter_cons_False (λ x, ¬ hasMatchingRole b x)) by (rewrite Hm; simpl; tauto).
      rewrite (filter_cons_True (λ x, Is_true (hasMatchingRole b x)))
        by (rewrite Hm; simpl; tauto).
      by rewrite <- app_assoc.
    + rewrite (filter_cons_True (λ x, ¬ hasMatchingRole b x)) by (rewrite Hm; simpl; tauto).
      rewrite (filter_cons_False (λ x, Is_true (hasMatchingRole b x)))
        by (rewrite Hm; simpl; tauto).
      by rewrite <- app_assoc.
Qed.

Lemma roleDifferenceIntersection_difference a b :
  (roleDifferenceIntersection a b).1 = filter (λ r, ¬ hasMatchingRole b r) a.
Proof. unfold roleDifferenceIntersection. by rewrite roleDifferenceIntersection_foldl. Qed.

Lemma roleDifferenceIntersection_intersection a b :
  (roleDifferenceIntersection a b).2 = filter (λ r, hasMatchingRole b r) a.
Proof. unfold roleDifferenceIntersection. by rewrite roleDifferenceIntersection_foldl. Qed.

(** ** The loops of [ReconcileRoles] *)

Section Loops.

Context {Secret : Type}.
Implicit Types (state : common.ClientState Secret) (cr : kc.KeycloakClient).
Implicit Types (desired : common.DesiredClusterState Secret).
Implicit Types (l : list kc.RoleRepresentation).

Lemma foldl_deleteStep state cr desired l :
  foldl (deleteStep state cr) desired l =
  desired ++ (getDeletedClientRoleState state cr <$> l).
Proof.
  revert desired. induction l as [| r l IH]; intros desired; simpl.
  - by rewrite app_nil_r.
  - rewrite IH. unfold deleteStep, common.AddAction, kc.DeepCopy.
    by rewrite <- app_assoc.
Qed.

Lemma foldl_createStep state cr desired l :
  foldl (createStep state cr) desired l =
  desired ++ (getCreatedClientRoleState state cr <$> l).
Proof.
  revert desired. induction l as [| r l IH]; intros desired; simpl.
  - by rewrite app_nil_r.
  - rewrite IH. unfold createStep, common.AddAction, kc.DeepCopy.
    by rewrite <- app_assoc.
Qed.

Lemma foldl_recreateStep state cr renamed desired l :
  foldl (recreateStep state cr renamed) desired l =
  desired ++ recreateActions state cr renamed l.
Proof.
  unfold recreateActions.
  revert desired. induction l as [| r l IH]; intros desired; simpl.
  - by rewrite app_nil_r.
  - rewrite IH. unfold recreateStep, common.AddAction, kc.DeepCopy.
    destruct (bool_decide (kc.ID r = "")); [| done].
    destruct (bool_decide (is_Some (renamed !! kc.Name r))); by rewrite <- app_assoc.
Qed.

(** The actions of the update loop do not depend on the map it builds. *)
Lemma foldl_updateStep_actions state cr existing desired (m : gmap string bool) l :
  (foldl (updateStep state cr existing) (desired, m) l).1 =
  desired ++ updateActions state cr existing l.
Proof.
  unfold updateActions.
  revert desired m. induction l as [| r l IH]; intros desired m; simpl.
  - by rewrite app_nil_r.
  - unfold updateStep at 2. simpl. unfold common.AddAction, kc.DeepCopy.
    destruct (bool_decide (kc.ID r ≠ "")); [| by rewrite IH].
    destruct (bool_decide (kc.Name r ≠ kc.Name (indexRole existing (kc.ID r))));
      rewrite IH; by rewrite <- app_assoc.
Qed.

(** The map of the update loop does not depend on the actions before it. *)
Lemma foldl_updateStep_renamed state cr existing desired desired' (m : gmap string bool) l :
  (foldl (updateStep state cr existing) (desired, m) l).2 =
  (foldl (updateStep state cr existing) (desired', m) l).2.
Proof.
  revert desired desired' m. induction l as [| r l IH]; intros desired desired' m; simpl.
  - done.
  - unfold updateStep at 2 4. simpl.
    destruct (bool_decide (kc.ID r ≠ "")); [| by apply IH].
    destruct (bool_decide (kc.Name r ≠ kc.Name (indexRole existing (kc.ID r))));
      by apply IH.
Qed.

(** One iteration adds the name of the indexed old role when the role has an
    [ID] and another name, and no other key. *)
Lemma updateStep_contains state cr existing
    (acc : common.DesiredClusterState Secret * gmap string bool) r n :
  is_Some ((updateStep state cr existing acc r).2 !! n) ↔
  is_Some (acc.2 !! n) ∨
  (kc.ID r ≠ "" ∧ kc.Name r ≠ kc.Name (indexRole existing (kc.ID r)) ∧
   kc.Name (indexRole existing (kc.ID r)) = n).
Proof.
  unfold updateStep. case_bool_decide as Hid; [| tauto].
  simpl. case_bool_decide as Hn; simpl; [| tauto].
  rewrite lookup_insert_is_Some'. tauto.
Qed.

(** A name is a key of the map after the update loop exactly when it was one
    before, or when the loop met a role with an [ID] whose indexed old role
    has that name, different from the role's own. *)
Lemma foldl_updateStep_contains state cr existing desired (m : gmap string bool) l n :
  is_Some ((foldl (updateStep state cr existing) (desired, m) l).2 !! n) ↔
  is_Some (m !! n) ∨
  ∃ role, role ∈ l ∧ kc.ID role ≠ "" ∧
    kc.Name role ≠ kc.Name (indexRole existing (kc.ID role)) ∧
    kc.Name (indexRole existing (kc.ID role)) = n.
Proof.
  revert desired m. induction l as [| r l IH]; intros desired m; cbn [foldl].
  - split; [by left |]. intros [H | (role & Hin & _)]; [done |].
    by apply elem_of_nil in Hin.
  - destruct (updateStep state cr existing (desired, m) r) as [desired' m'] eqn:Hstep.
    rewrite IH. replace m' with (updateStep state cr existing (desired, m) r).2
      by (by rewrite Hstep).
    rewrite updateStep_contains. simpl. split.
    + intros [[Hs | Hr] | (role & Hin & Hrole)].
      * by left.
      * right. exists r. split; [left | done].
      * right. exists role. split; [by right | done].
    + intros [Hs | (role & Hin & Hrole)]; [by left; left |].
      apply elem_of_cons in Hin as [-> | Hin]; [by left; right |].
      right. by exists role.
Qed.

(** [ReconcileRoles] appends, in this order: the deletions, the updates of the
    matched roles with an [ID], the creations and updates of the matched roles
    without one, and the creations of the unmatched roles. *)
Lemma ReconcileRoles_unfold state cr desired :
  ReconcileRoles state cr desired =
  desired ++
  (getDeletedClientRoleState state cr <$>
     filter (λ r, ¬ hasMatchingRole (kc.Roles (kc.Spec cr)) r) (common.Roles state)) ++
  updateActions state cr (existingRoleByID (common.Roles state))
    (filter (λ r, hasMatchingRole (common.Roles state) r) (kc.Roles (kc.Spec cr))) ++
  recreateActions state cr (renamedRolesOldNames state cr)
    (filter (λ r, hasMatchingRole (common.Roles state) r) (kc.Roles (kc.Spec cr))) ++
  (getCreatedClientRoleState state cr <$>
     filter (λ r, ¬ hasMatchingRole (common.Roles state) r) (kc.Roles (kc.Spec cr))).
Proof.
  unfold ReconcileRoles, renamedRolesOldNames.
  rewrite !roleDifferenceIntersection_difference, !roleDifferenceIntersection_intersection.
  rewrite foldl_deleteStep.
  match goal with
  | |- context [foldl (updateStep ?s ?c ?e) (?d, ?m) ?l] =>
      pose proof (foldl_updateStep_actions s c e d m l) as Hact;
      pose proof (foldl_updateStep_renamed s c e d [] m l) as Hren;
      destruct (foldl (updateStep s c e) (d, m) l) as [acts renamed]
  end.
  simpl in Hact, Hren. subst acts renamed.
  rewrite foldl_createStep, foldl_recreateStep.
  by rewrite <- !app_assoc.
Qed.

Lemma ReconcileRoles_app state cr desired :
  ReconcileRoles state cr desired = desired ++ roleActions state cr.
Proof. unfold roleActions. by rewrite (ReconcileRoles_unfold _ _ desired), ReconcileRoles_unfold. Qed.

End Loops.

(** ** The index of the observed roles *)

Lemma existingRoleByID_snoc l r :
  existingRoleByID (l ++ [r]) = <[kc.ID r := r]> (existingRoleByID l).
Proof. unfold existingRoleByID. by rewrite foldl_app. Qed.

(** Indexing finds the last role of the list that carries the [ID]. *)
Lemma existingRoleByID_lookup l id :
  existingRoleByID l !! id = last (filter (λ r, kc.ID r = id) l).
Proof.
  induction l as [| r l IH] using rev_ind.
  - done.
  - rewrite existingRoleByID_snoc, filter_app.
    destruct (decide (kc.ID r = id)) as [Hid | Hid].
    + rewrite (filter_cons_True (λ x, kc.ID x = id)) by done.
      rewrite filter_nil, last_snoc. subst id. by rewrite lookup_insert_eq.
    + rewrite (filter_cons_False (λ x, kc.ID x = id)) by done.
      rewrite filter_nil, app_nil_r. by rewrite lookup_insert_ne.
Qed.

Lemma existingRoleByID_Some l id o :
  existingRoleByID l !! id = Some o → o ∈ l ∧ kc.ID o = id.
Proof.
  rewrite existingRoleByID_lookup. intros Hlast.
  apply last_Some in Hlast as [l' Hl'].
  assert (o ∈ filter (λ r, kc.ID r = id) l) as Ho.
  { rewrite Hl'. apply elem_of_app. right. left. }
  by apply list_elem_of_filter in Ho as [? ?].
Qed.

Lemma existingRoleByID_is_Some l id :
  (∃ o, o ∈ l ∧ kc.ID o = id) → is_Some (existingRoleByID l !! id).
Proof.
  intros (o & Ho & Hid). rewrite existingRoleByID_lookup.
  assert (o ∈ filter (λ r, kc.ID r = id) l) as Hf by by apply list_elem_of_filter.
  destruct (filter (λ r, kc.ID r = id) l) as [| x f'] eqn:Hl using rev_ind.
  - by apply elem_of_nil in Hf.
  - rewrite last_snoc. by eexists.
Qed.

Lemma indexRole_found l id :
  (∃ o, o ∈ l ∧ kc.ID o = id) →
  indexRole (existingRoleByID l) id ∈ l ∧ kc.ID (indexRole (existingRoleByID l) id) = id.
Proof.
  intros H. apply existingRoleByID_is_Some in H as [o Ho].
  unfold indexRole. rewrite Ho. simpl. by apply existingRoleByID_Some.
Qed.

(** Indexing either finds an observed role with the [ID], or misses and
    gives the zero role. *)
Lemma indexRole_cases l id :
  (indexRole (existingRoleByID l) id ∈ l ∧
   kc.ID (indexRole (existingRoleByID l) id) = id ∧
   existingRoleByID l !! id = Some (indexRole (existingRoleByID l) id)) ∨
  (indexRole (existingRoleByID l) id = kc.zeroRole ∧ existingRoleByID l !! id = None).
Proof.
  unfold indexRole. destruct (existingRoleByID l !! id) as [o |] eqn:Ho.
  - left. simpl. by destruct (existingRoleByID_Some _ _ _ Ho).
  - by right.
Qed.

(** When no two observed roles share an [ID], indexing by the [ID] of an
    observed role gives that role. *)
Lemma indexRole_unique l o :
  NoDup (kc.ID <$> l) → o ∈ l → indexRole (existingRoleByID l) (kc.ID o) = o.
Proof.
  intros Hnd Ho.
  destruct (indexRole_found l (kc.ID o)) as [Hin Hid]; [by exists o |].
  revert Hin Hid. generalize (indexRole (existingRoleByID l) (kc.ID o)). intros o' Hin Hid.
  apply list_elem_of_lookup in Ho as [i Hi]. apply list_elem_of_lookup in Hin as [j Hj].
  assert (i = j) as ->.
  { eapply NoDup_lookup; [exact Hnd | |].
    - rewrite list_lookup_fmap, Hi. done.
    - rewrite list_lookup_fmap, Hj. simpl. by rewrite Hid. }
  congruence.
Qed.

(** ** Membership in, and projections of, the role actions *)

Lemma occurrences_app r l1 l2 :
  occurrences r (l1 ++ l2) = occurrences r l1 + occurrences r l2.
Proof. unfold occurrences. by rewrite filter_app, length_app. Qed.

Lemma occurrences_filter (P : kc.RoleRepresentation → Prop) `{!∀ x, Decision (P x)} r l :
  occurrences r (filter P l) = if decide (P r) then occurrences r l else 0.
Proof.
  unfold occurrences. induction l as [| x l IH]; simpl.
  - by destruct (decide (P r)).
  - rewrite (filter_cons P). destruct (decide (P x)) as [HPx | HPx].
    + rewrite !(filter_cons (λ y, y = r)). destruct (decide (x = r)) as [-> | Hne].
      * simpl. rewrite IH. destruct (decide (P r)); [done | by destruct n].
      * exact IH.
    + rewrite IH. rewrite (filter_cons (λ y, y = r)).
      destruct (decide (x = r)) as [-> | Hne]; [| done].
      destruct (decide (P r)); [by destruct HPx | done].
Qed.

Lemma occurrences_NoDup r l : NoDup l → r ∈ l → occurrences r l = 1.
Proof.
  unfold occurrences. induction 1 as [| x l Hx Hnd IH]; intros Hr.
  - by apply elem_of_nil in Hr.
  - rewrite (filter_cons (λ y, y = r)). destruct (decide (x = r)) as [-> | Hne].
    + simpl. f_equal. destruct (filter (λ y, y = r) l) as [| y f] eqn:Hf; [done |].
      assert (y ∈ filter (λ y, y = r) l) as Hy by (rewrite Hf; left).
      apply list_elem_of_filter in Hy as [-> Hy]. done.
    + apply elem_of_cons in Hr as [-> | Hr]; [done | by apply IH].
Qed.

Lemma or_iff_both (A B C D : Prop) : (A ↔ C) → (B ↔ D) → (A ∨ B ↔ C ∨ D).
Proof. tauto. Qed.

Section Membership.

Context {Secret : Type}.
Implicit Types (state : common.ClientState Secret) (cr : kc.KeycloakClient).
Implicit Types (a : common.ClusterAction Secret) (l : list kc.RoleRepresentation).

Lemma elem_of_updateActions state cr existing l a :
  a ∈ updateActions state cr existing l ↔
  ∃ role, role ∈ l ∧ kc.ID role ≠ "" ∧
    a = getUpdatedClientRoleState state cr role (indexRole existing (kc.ID role)).
Proof.
  unfold updateActions. rewrite list_elem_of_bind. split.
  - intros (role & Ha & Hin). exists role. split; [done |].
    destruct (decide (kc.ID role ≠ "")) as [Hid | Hid].
    + rewrite (bool_decide_eq_true_2 _ Hid) in Ha. apply list_elem_of_singleton in Ha. done.
    + rewrite (bool_decide_eq_false_2 _ Hid) in Ha. by apply elem_of_nil in Ha.
  - intros (role & Hin & Hid & ->). exists role. split; [| done].
    rewrite (bool_decide_eq_true_2 _ Hid). left.
Qed.

Lemma elem_of_recreateActions state cr renamed l a :
  a ∈ recreateActions state cr renamed l ↔
  ∃ role, role ∈ l ∧ kc.ID role = "" ∧
    ((is_Some (renamed !! kc.Name role) ∧ a = getCreatedClientRoleState state cr role) ∨
     (¬ is_Some (renamed !! kc.Name role) ∧
      a = getUpdatedClientRoleState state cr role role)).
Proof.
  unfold recreateActions. rewrite list_elem_of_bind. split.
  - intros (role & Ha & Hin). exists role. split; [done |].
    destruct (decide (kc.ID role = "")) as [Hid | Hid].
    + rewrite (bool_decide_eq_true_2 _ Hid) in Ha. split; [done |].
      destruct (decide (is_Some (renamed !! kc.Name role))) as [Hs | Hs].
      * rewrite (bool_decide_eq_true_2 _ Hs) in Ha. apply list_elem_of_singleton in Ha.
        by left.
      * rewrite (bool_decide_eq_false_2 _ Hs) in Ha. apply list_elem_of_singleton in Ha.
        by right.
    + rewrite (bool_decide_eq_false_2 _ Hid) in Ha. by apply elem_of_nil in Ha.
  - intros (role & Hin & Hid & [[Hs ->] | [Hs ->]]); exists role; (split; [| done]);
      rewrite (bool_decide_eq_true_2 _ Hid).
    + rewrite (bool_decide_eq_true_2 _ Hs). left.
    + rewrite (bool_decide_eq_false_2 _ Hs). left.
Qed.

(** The classification of the role actions: where each one comes from. *)
Lemma elem_of_roleActions state cr a :
  a ∈ roleActions state cr ↔
  (∃ o, o ∈ common.Roles state ∧ hasMatchingRole (kc.Roles (kc.Spec cr)) o = false ∧
     a = getDeletedClientRoleState state cr o) ∨
  (∃ d, d ∈ kc.Roles (kc.Spec cr) ∧ hasMatchingRole (common.Roles state) d = true ∧
     kc.ID d ≠ "" ∧
     a = getUpdatedClientRoleState state cr d
           (indexRole (existingRoleByID (common.Roles state)) (kc.ID d))) ∨
  (∃ d, d ∈ kc.Roles (kc.Spec cr) ∧ hasMatchingRole (common.Roles state) d = true ∧
     kc.ID d = "" ∧
     ((is_Some (renamedRolesOldNames state cr !! kc.Name d) ∧
       a = getCreatedClientRoleState state cr d) ∨
      (¬ is_Some (renamedRolesOldNames state cr !! kc.Name d) ∧
       a = getUpdatedClientRoleState state cr d d))) ∨
  (∃ d, d ∈ kc.Roles (kc.Spec cr) ∧ hasMatchingRole (common.Roles state) d = false ∧
     a = getCreatedClientRoleState state cr d).
Proof.
  unfold roleActions. rewrite ReconcileRoles_unfold. simpl.
  rewrite !elem_of_app, !list_elem_of_fmap, elem_of_updateActions, elem_of_recreateActions.
  repeat apply or_iff_both;
    (split; intros (x & H); exists x; revert H;
     rewrite ?list_elem_of_filter, ?Is_true_false, ?Is_true_true; tauto).
Qed.

End Membership.

Section Projections.

Context {Secret : Type}.
Implicit Types (state : common.ClientState Secret) (cr : kc.KeycloakClient).
Implicit Types (l : list kc.RoleRepresentation).

Lemma omap_fmap_Some {A B} (f : B → option A) (g : A → B) (l : list A) :
  (∀ x, f (g x) = Some x) → omap f (g <$> l) = l.
Proof. intros H. induction l as [| x l IH]; csimpl; [done |]. by rewrite H, IH. Qed.

Lemma omap_fmap_None {A B C} (f : B → option C) (g : A → B) (l : list A) :
  (∀ x, f (g x) = None) → omap f (g <$> l) = [].
Proof. intros H. induction l as [| x l IH]; csimpl; [done |]. by rewrite H, IH. Qed.

Lemma omap_bind_pointwise {A B C} (f : B → option C) (g : A → list B) (P : A → bool)
    (h : A → C) (l : list A) :
  (∀ x, omap f (g x) = if P x then [h x] else []) →
  omap f (l ≫= g) = h <$> filter (λ x, P x) l.
Proof.
  intros H. induction l as [| x l IH]; [done |].
  rewrite bind_cons, omap_app, IH, H.
  destruct (P x) eqn:HP.
  - by rewrite (filter_cons_True (λ y, Is_true (P y))) by (rewrite HP; simpl; tauto).
  - by rewrite (filter_cons_False (λ y, Is_true (P y))) by (rewrite HP; simpl; tauto).
Qed.

(** The roles deleted are the observed roles without a matching desired
    role, in their order. *)
Lemma deletedRole_roleActions state cr :
  omap deletedRole (roleActions state cr) =
  filter (λ r, ¬ hasMatchingRole (kc.Roles (kc.Spec cr)) r) (common.Roles state).
Proof.
  unfold roleActions. rewrite ReconcileRoles_unfold. simpl.
  unfold updateActions, recreateActions. rewrite !omap_app.
  rewrite (omap_fmap_Some deletedRole) by done.
  rewrite (omap_bind_pointwise deletedRole _ (λ _, false) id)
    by (intros x; by destruct (bool_decide (kc.ID x ≠ ""))).
  rewrite (omap_bind_pointwise deletedRole _ (λ _, false) id)
    by (intros x; destruct (bool_decide (kc.ID x = "")); [| done];
        by destruct (bool_decide (is_Some _))).
  rewrite (omap_fmap_None deletedRole) by done.
  rewrite !app_nil_r.
  assert (∀ l, filter (λ _ : kc.RoleRepresentation, Is_true false) l = []) as Hnil.
  { intros l. induction l as [| x l IH]; [done |]. by rewrite filter_cons_False by (simpl; tauto). }
  by rewrite !Hnil, app_nil_r.
Qed.

(** The new payloads of the create and update actions: the matched roles
    with an [ID], then the matched roles without one, then the unmatched
    roles. *)
Lemma newRole_roleActions state cr :
  omap newRole (roleActions state cr) =
  filter (λ r, bool_decide (kc.ID r ≠ ""))
    (filter (λ r, hasMatchingRole (common.Roles state) r) (kc.Roles (kc.Spec cr))) ++
  filter (λ r, bool_decide (kc.ID r = ""))
    (filter (λ r, hasMatchingRole (common.Roles state) r) (kc.Roles (kc.Spec cr))) ++
  filter (λ r, ¬ hasMatchingRole (common.Roles state) r) (kc.Roles (kc.Spec cr)).
Proof.
  unfold roleActions. rewrite ReconcileRoles_unfold. simpl.
  unfold updateActions, recreateActions. rewrite !omap_app.
  rewrite (omap_fmap_None newRole) by done.
  rewrite (omap_bind_pointwise newRole _ (λ r, bool_decide (kc.ID r ≠ "")) id)
    by (intros x; by destruct (bool_decide (kc.ID x ≠ ""))).
  rewrite (omap_bind_pointwise newRole _ (λ r, bool_decide (kc.ID r = "")) id)
    by (intros x; destruct (bool_decide (kc.ID x = "")); [| done];
        by destruct (bool_decide (is_Some _))).
  rewrite (omap_fmap_Some newRole) by done.
  by rewrite !list_fmap_id.
Qed.

(** The roles created: the matched roles without an [ID] whose name is a key
    of [renamedRolesOldNames], then the unmatched roles. *)
Lemma createdRole_roleActions state cr :
  omap createdRole (roleActions state cr) =
  filter (λ r, bool_decide (kc.ID r = "") &&
               bool_decide (is_Some (renamedRolesOldNames state cr !! kc.Name r)))
    (filter (λ r, hasMatchingRole (common.Roles state) r) (kc.Roles (kc.Spec cr))) ++
  filter (λ r, ¬ hasMatchingRole (common.Roles state) r) (kc.Roles (kc.Spec cr)).
Proof.
  unfold roleActions. rewrite ReconcileRoles_unfold. simpl.
  unfold updateActions, recreateActions. rewrite !omap_app.
  rewrite (omap_fmap_None createdRole) by done.
  rewrite (omap_bind_pointwise createdRole _ (λ _, false) id)
    by (intros x; by destruct (bool_decide (kc.ID x ≠ ""))).
  rewrite (omap_bind_pointwise createdRole _
             (λ r, bool_decide (kc.ID r = "") &&
                   bool_decide (is_Some (renamedRolesOldNames state cr !! kc.Name r))) id)
    by (intros x; destruct (bool_decide (kc.ID x = "")); [| done];
        by destruct (bool_decide (is_Some _))).
  rewrite (omap_fmap_Some createdRole) by done.
  rewrite !list_fmap_id.
  assert (∀ l, filter (λ _ : kc.RoleRepresentation, Is_true false) l = []) as Hnil.
  { intros l. induction l as [| x l IH]; [done |]. by rewrite filter_cons_False by (simpl; tauto). }
  by rewrite Hnil.
Qed.

End Projections.

(** ** Kinds of actions in the result *)

Section Kinds.

Context {Secret : Type}.
Variable model_ClientSecret : kc.KeycloakClient → Secret.
Variable model_ClientSecretReconciled : kc.KeycloakClient → option Secret → Secret.
Implicit Types (state : common.ClientState Secret) (cr : kc.KeycloakClient).
Implicit Types (acts : list (common.ClusterAction Secret)).

Lemma countActions_app (p : common.ClusterAction Secret → bool) acts1 acts2 :
  countActions p (acts1 ++ acts2) = countActions p acts1 + countActions p acts2.
Proof. unfold countActions. by rewrite filter_app, length_app. Qed.

Lemma countActions_none (p : common.ClusterAction Secret → bool) acts :
  Forall (λ a, p a = false) acts → countActions p acts = 0.
Proof.
  unfold countActions. induction 1 as [| a acts Ha _ IH]; [done |].
  by rewrite (filter_cons_False (λ a, Is_true (p a))) by (rewrite Ha; simpl; tauto).
Qed.

Lemma roleActions_isRoleAction state cr :
  Forall (λ a, isRoleAction a = true) (roleActions state cr).
Proof.
  apply Forall_forall. intros a Ha. apply elem_of_roleActions in Ha.
  destruct Ha as [(o & _ & _ & ->) | [(d & _ & _ & _ & ->) |
    [(d & _ & _ & _ & [[_ ->] | [_ ->]]) | (d & _ & _ & ->)]]]; done.
Qed.


(** The list that [Reconcile] returns when the resource is not being
    deleted. *)
Lemma Reconcile_alive state cr :
  kc.DeletionTimestamp cr = None →
  Reconcile model_ClientSecret model_ClientSecretReconciled state cr =
  [ pingKeycloak;
    match common.Client state with
    | None => getCreatedClientState state cr
    | Some _ => getUpdatedClientState state cr
    end;
    match common.ClientSecret state with
    | None => getCreatedClientSecretState model_ClientSecret state cr
    | Some _ => getUpdatedClientSecretState model_ClientSecretReconciled state cr
    end ] ++ roleActions state cr.
Proof.
  intros Hts. unfold Reconcile. rewrite Hts. rewrite ReconcileRoles_app.
  unfold common.AddAction.
  by destruct (common.Client state), (common.ClientSecret state).
Qed.

End Kinds.

(** ** Filters that keep everything or nothing *)

Lemma filter_all {A} (P : A → Prop) `{!∀ x, Decision (P x)} (l : list A) :
  (∀ x, x ∈ l → P x) → filter P l = l.
Proof.
  induction l as [| x l IH]; intros Hall; [done |].
  rewrite filter_cons_True by (apply Hall; left).
  f_equal. apply IH. intros y Hy. apply Hall. by right.
Qed.

Lemma filter_none {A} (P : A → Prop) `{!∀ x, Decision (P x)} (l : list A) :
  (∀ x, x ∈ l → ¬ P x) → filter P l = [].
Proof.
  induction l as [| x l IH]; intros Hall; [done |].
  rewrite filter_cons_False by (apply Hall; left).
  apply IH. intros y Hy. apply Hall. by right.
Qed.

Lemma filter_nil_none {A} (P : A → Prop) `{!∀ x, Decision (P x)} (l : list A) :
  filter P l = [] ↔ ∀ x, x ∈ l → ¬ P x.
Proof.
  split; [| apply filter_none].
  intros Hnil x Hx HP.
  assert (x ∈ filter P l) as Hf by by apply list_elem_of_filter.
  rewrite Hnil in Hf. by apply elem_of_nil in Hf.
Qed.

Section LoopsAsMaps.

Context {Secret : Type}.
Implicit Types (state : common.ClientState Secret) (cr : kc.KeycloakClient).

(** The update loop maps the roles with an [ID] to their updates. *)
Lemma updateActions_fmap state cr existing (l : list kc.RoleRepresentation) :
  updateActions state cr existing l =
  (λ d, getUpdatedClientRoleState state cr d (indexRole existing (kc.ID d))) <$>
    filter (λ d, kc.ID d ≠ "") l.
Proof.
  unfold updateActions. induction l as [| d l IH]; [done |].
  rewrite bind_cons, IH. destruct (decide (kc.ID d ≠ "")) as [Hid | Hid].
  - rewrite (bool_decide_eq_true_2 _ Hid).
    by rewrite (filter_cons_True (λ d, kc.ID d ≠ "")) by done.
  - rewrite (bool_decide_eq_false_2 _ Hid).
    by rewrite (filter_cons_False (λ d, kc.ID d ≠ "")) by done.
Qed.

(** When no name of a role without [ID] is a key of the map, the second loop
    maps the roles without [ID] to their self-paired updates. *)
Lemma recreateActions_fmap state cr (renamed : gmap string bool)
    (l : list kc.RoleRepresentation) :
  (∀ d, d ∈ l → kc.ID d = "" → ¬ is_Some (renamed !! kc.Name d)) →
  recreateActions state cr renamed l =
  (λ d, getUpdatedClientRoleState state cr d d) <$> filter (λ d, kc.ID d = "") l.
Proof.
  unfold recreateActions. induction l as [| d l IH]; intros Hnot; [done |].
  rewrite bind_cons, IH by (intros x Hx; apply Hnot; by right).
  destruct (decide (kc.ID d = "")) as [Hid | Hid].
  - rewrite (bool_decide_eq_true_2 _ Hid).
    rewrite (filter_cons_True (λ d, kc.ID d = "")) by done.
    by rewrite bool_decide_eq_false_2 by (apply Hnot; [left | done]).
  - rewrite (bool_decide_eq_false_2 _ Hid).
    by rewrite (filter_cons_False (λ d, kc.ID d = "")) by done.
Qed.

End LoopsAsMaps.

(** ** Where the role actions come from *)

Section Origins.

Context {Secret : Type}.
Implicit Types (state : common.ClientState Secret) (cr : kc.KeycloakClient).
Implicit Types (a : common.ClusterAction Secret).
Implicit Types (d o new old : kc.RoleRepresentation).

(** The keys of [renamedRolesOldNames]: the names of the indexed old roles of
    the matched desired roles with an [ID] whose own name is different. *)
Lemma renamedRolesOldNames_contains state cr n :
  is_Some (renamedRolesOldNames state cr !! n) ↔
  ∃ r, r ∈ kc.Roles (kc.Spec cr) ∧ hasMatchingRole (common.Roles state) r = true ∧
    kc.ID r ≠ "" ∧
    kc.Name r ≠ kc.Name (indexRole (existingRoleByID (common.Roles state)) (kc.ID r)) ∧
    kc.Name (indexRole (existingRoleByID (common.Roles state)) (kc.ID r)) = n.
Proof.
  unfold renamedRolesOldNames.
  rewrite roleDifferenceIntersection_intersection, foldl_updateStep_contains.
  rewrite lookup_empty. split.
  - intros [[? Hnone] | (r & Hr & H)]; [done |].
    apply list_elem_of_filter in Hr as [Hm Hr]. exists r.
    split; [done |]. split; [by apply Is_true_true | done].
  - intros (r & Hr & Hm & H). right. exists r. split; [| done].
    apply list_elem_of_filter. split; [by apply Is_true_true | done].
Qed.

Lemma deletedRole_origin state cr a o :
  a ∈ roleActions state cr → deletedRole a = Some o →
  a = getDeletedClientRoleState state cr o ∧
  o ∈ common.Roles state ∧ hasMatchingRole (kc.Roles (kc.Spec cr)) o = false.
Proof.
  intros Ha Hdel. apply elem_of_roleActions in Ha.
  destruct Ha as [(o' & ? & ? & ->) | [(d & _ & _ & _ & ->) |
    [(d & _ & _ & _ & [[_ ->] | [_ ->]]) | (d & _ & _ & ->)]]];
    simpl in Hdel; simplify_eq. done.
Qed.

Lemma createdRole_origin state cr a d :
  a ∈ roleActions state cr → createdRole a = Some d →
  a = getCreatedClientRoleState state cr d ∧ d ∈ kc.Roles (kc.Spec cr) ∧
  ((hasMatchingRole (common.Roles state) d = true ∧ kc.ID d = "" ∧
    is_Some (renamedRolesOldNames state cr !! kc.Name d)) ∨
   hasMatchingRole (common.Roles state) d = false).
Proof.
  intros Ha Hcr. apply elem_of_roleActions in Ha.
  destruct Ha as [(o' & ? & ? & ->) | [(d' & _ & _ & _ & ->) |
    [(d' & ? & ? & ? & [[? ->] | [_ ->]]) | (d' & ? & ? & ->)]]];
    simpl in Hcr; simplify_eq; split_and!; try done; [by left | by right].
Qed.

Lemma updatedRole_origin state cr a new old :
  a ∈ roleActions state cr → updatedRole a = Some (new, old) →
  a = getUpdatedClientRoleState state cr new old ∧ new ∈ kc.Roles (kc.Spec cr) ∧
  hasMatchingRole (common.Roles state) new = true ∧
  ((kc.ID new ≠ "" ∧
    old = indexRole (existingRoleByID (common.Roles state)) (kc.ID new)) ∨
   (kc.ID new = "" ∧ old = new ∧
    ¬ is_Some (renamedRolesOldNames state cr !! kc.Name new))).
Proof.
  intros Ha Hup. apply elem_of_roleActions in Ha.
  destruct Ha as [(o' & ? & ? & ->) | [(d' & ? & ? & ? & ->) |
    [(d' & ? & ? & ? & [[? ->] | [? ->]]) | (d' & ? & ? & ->)]]];
    simpl in Hup; simplify_eq; split_and!; try done; [by left | by right].
Qed.

(** The deletions come first. *)
Lemma roleActions_deletes_first state cr :
  ∃ dels rest,
    roleActions state cr = dels ++ rest ∧
    Forall (λ a, is_Some (deletedRole a) ∧ newRole a = None) dels ∧
    Forall (λ a, deletedRole a = None ∧ is_Some (newRole a)) rest.
Proof.
  unfold roleActions. rewrite ReconcileRoles_unfold. simpl.
  eexists _, _. split; [reflexivity |]. split.
  - apply Forall_fmap, Forall_forall. intros o _. simpl. by split; [eexists |].
  - rewrite !Forall_app. split_and!.
    + apply Forall_forall. intros a Ha. apply elem_of_updateActions in Ha.
      destruct Ha as (r & _ & _ & ->). simpl. by split; [| eexists].
    + apply Forall_forall. intros a Ha. apply elem_of_recreateActions in Ha.
      destruct Ha as (r & _ & _ & [[_ ->] | [_ ->]]); simpl; by split; [| eexists].
    + apply Forall_fmap, Forall_forall. intros o _. simpl. by split; [| eexists].
Qed.

End Origins.


(** * Properties of the reconciliation *)

(** ** The matcher rule *)

(** Claim C2.  Two roles match exactly when both carry a non-empty [ID] and
    the two [ID]s are equal (whatever the names), or at least one [ID] is
    empty and the names are equal. *)
Theorem roleMatches_id_then_name (a b : kc.RoleRepresentation) :
  roleMatches a b = true ↔
  (kc.ID a ≠ "" ∧ kc.ID b ≠ "" ∧ kc.ID a = kc.ID b) ∨
  ((kc.ID a = "" ∨ kc.ID b = "") ∧ kc.Name a = kc.Name b).
Proof. exact (roleMatches_rule a b). Qed.

(** ** The parent resource, its secret and the ping *)

Section SingleObjects.

Context {Secret : Type}.
Variable model_ClientSecret : kc.KeycloakClient → Secret.
Variable model_ClientSecretReconciled : kc.KeycloakClient → option Secret → Secret.
Implicit Types (state : common.ClientState Secret) (cr : kc.KeycloakClient).

Abbreviation Reconcile' := (Reconcile model_ClientSecret model_ClientSecretReconciled).

(** Claim C5.  When the deletion timestamp of the resource is set, the
    result is the ping followed by the deletion of the parent client and
    nothing else: no role action, no secret action and no creation or update
    of the parent, whatever the roles and the secret are. *)
Theorem Reconcile_deletion_short_circuit state cr (t : Z) :
  kc.DeletionTimestamp cr = Some t →
  Reconcile' state cr = [pingKeycloak; getDeletedClientState state cr] ∧
  countActions isRoleAction (Reconcile' state cr) = 0 ∧
  countActions isSecretAction (Reconcile' state cr) = 0 ∧
  countActions isClientAction (Reconcile' state cr) = 1.
Proof.
  intros Hts. unfold Reconcile. rewrite Hts. done.
Qed.

(** Claim C8.  The result always starts with the ping, and no later action
    is a ping: there is exactly one, before everything else, whether or not
    the resource is being deleted. *)
Theorem Reconcile_ping_first state cr :
  ∃ rest,
    Reconcile' state cr = pingKeycloak :: rest ∧
    Forall (λ a, isPing a = false) rest ∧
    countActions isPing (Reconcile' state cr) = 1.
Proof.
  destruct (kc.DeletionTimestamp cr) as [t |] eqn:Hts.
  - exists [getDeletedClientState state cr].
    unfold Reconcile. rewrite Hts. repeat split. by repeat constructor.
  - rewrite (Reconcile_alive _ _ _ _ Hts).
    eexists. split; [reflexivity |].
    assert (Forall (λ a : common.ClusterAction Secret, isPing a = false)
              (roleActions state cr)) as Hroles.
    { eapply Forall_impl; [apply roleActions_isRoleAction |]. by intros []. }
    split.
    + repeat constructor; [by destruct (common.Client state) |
                           by destruct (common.ClientSecret state) | exact Hroles].
    + rewrite countActions_app, (countActions_none _ _ Hroles).
      by destruct (common.Client state), (common.ClientSecret state).
Qed.


End SingleObjects.

(** The deletion path on a sample resource with a client, a secret and
    roles on both sides. *)
Lemma Reconcile_deletion_short_circuit_witness :
  kc.DeletionTimestamp (sampleClient (Some 1700000000%Z) [mkRole "1" "b"; mkRole "" "a"]) =
    Some 1700000000%Z ∧
  Reconcile sampleSecret sampleSecretReconciled
    (sampleState (Some {| kc.ClientID := "web" |}) (Some tt) [mkRole "1" "a"])
    (sampleClient (Some 1700000000%Z) [mkRole "1" "b"; mkRole "" "a"]) =
  [ common.PingAction "check if keycloak is available";
    common.DeleteClientAction
      (sampleClient (Some 1700000000%Z) [mkRole "1" "b"; mkRole "" "a"])
      "main" "removing client keycloak/web" ].
Proof.
  split; [reflexivity |].
  apply (Reconcile_deletion_short_circuit sampleSecret sampleSecretReconciled
           (sampleState (Some {| kc.ClientID := "web" |}) (Some tt) [mkRole "1" "a"])
           (sampleClient (Some 1700000000%Z) [mkRole "1" "b"; mkRole "" "a"])
           1700000000%Z).
  reflexivity.
Defined.


(** ** The roles *)

Section Roles.

Context {Secret : Type}.
Implicit Types (state : common.ClientState Secret) (cr : kc.KeycloakClient).
Implicit Types (d o : kc.RoleRepresentation).




(** Claim C10.  In the role actions every deletion stands before every
    update and every creation.  So when a role is deleted and a role is
    created, as for two roles that share a name without sharing an [ID], the
    deletion is found at an earlier position than the creation. *)
Theorem ReconcileRoles_deletes_first state cr :
  (∀ i j a b,
     roleActions state cr !! i = Some a →
     roleActions state cr !! j = Some b →
     is_Some (deletedRole a) →
     is_Some (newRole b) →
     i < j) ∧
  (∀ o d,
     getDeletedClientRoleState state cr o ∈ roleActions state cr →
     getCreatedClientRoleState state cr d ∈ roleActions state cr →
     ∃ i j,
       roleActions state cr !! i = Some (getDeletedClientRoleState state cr o) ∧
       roleActions state cr !! j = Some (getCreatedClientRoleState state cr d) ∧
       i < j).
Proof.
  assert (∀ i j a b,
     roleActions state cr !! i = Some a →
     roleActions state cr !! j = Some b →
     is_Some (deletedRole a) → is_Some (newRole b) → i < j) as Horder.
  { destruct (roleActions_deletes_first state cr) as (dels & rest & -> & Hdels & Hrest).
    intros i j a b Hi Hj Ha Hb.
    assert (i < length dels) as Hilt.
    { destruct (decide (i < length dels)) as [| Hge]; [done |].
      rewrite lookup_app_r in Hi by lia.
      apply list_elem_of_lookup_2 in Hi.
      rewrite Forall_forall in Hrest. destruct (Hrest a Hi) as [Hnone _].
      rewrite Hnone in Ha. by destruct Ha. }
    destruct (decide (j < length dels)) as [Hjlt | Hge]; [| lia].
    rewrite lookup_app_l in Hj by done.
    apply list_elem_of_lookup_2 in Hj.
    rewrite Forall_forall in Hdels. destruct (Hdels b Hj) as [_ Hnone].
    rewrite Hnone in Hb. by destruct Hb. }
  split; [exact Horder |].
  intros o d Ho Hd.
  apply list_elem_of_lookup in Ho as [i Hi]. apply list_elem_of_lookup in Hd as [j Hj].
  exists i, j. split_and!; [done | done |].
  eapply Horder; [exact Hi | exact Hj | by eexists | by eexists].
Qed.

(** Claim C6.  When the desired and the observed collection hold the same
    roles, within the data model (every observed role carries an [ID], or no
    two observed roles share an [ID], or no two different desired roles share
    a name), every role action is an update: nothing is created and nothing
    is deleted.  Whatever was emitted before, a run appends the updates of the
    desired roles in place, a list fixed by the two collections: running again
    on the same inputs gives the same list.  When the observed [ID]s are
    pairwise different every update is from a role to itself. *)
Theorem ReconcileRoles_same_roles_only_updates state cr :
  (∀ r, r ∈ kc.Roles (kc.Spec cr) ↔ r ∈ common.Roles state) →
  ((∀ o, o ∈ common.Roles state → kc.ID o ≠ "") ∨
   NoDup (kc.ID <$> common.Roles state) ∨
   (∀ x y, x ∈ kc.Roles (kc.Spec cr) → y ∈ kc.Roles (kc.Spec cr) →
      kc.Name x = kc.Name y → x = y)) →
  Forall (λ a, is_Some (updatedRole a)) (roleActions state cr) ∧
  omap createdRole (roleActions state cr) = [] ∧
  omap deletedRole (roleActions state cr) = [] ∧
  (∀ desired, ReconcileRoles state cr desired = desired ++ roleActions state cr) ∧
  roleActions state cr = inPlaceUpdates state cr ∧
  (∀ desired desired',
     ReconcileRoles state cr (ReconcileRoles state cr desired ++ desired') =
     (desired ++ inPlaceUpdates state cr) ++ desired' ++ inPlaceUpdates state cr) ∧
  (NoDup (kc.ID <$> common.Roles state) →
   ∀ a new old, a ∈ roleActions state cr → updatedRole a = Some (new, old) → old = new).
Proof.
  intros Hsame Hmodel.
  assert (∀ a o, a ∈ roleActions state cr → deletedRole a = Some o → False) as Hnodel.
  { intros a o Ha Hdel. apply (deletedRole_origin _ _ _ _ Ha) in Hdel as (_ & Ho & Hno).
    apply Hsame in Ho. apply hasMatchingRole_self in Ho. congruence. }
  assert (∀ a d, a ∈ roleActions state cr → createdRole a = Some d → False) as Hnocr.
  { intros a d Ha Hcr. apply (createdRole_origin _ _ _ _ Ha) in Hcr as (_ & Hd & Hcase).
    destruct Hcase as [(_ & Hid & Hren) | Hno].
    - apply renamedRolesOldNames_contains in Hren as (r & Hr & _ & Hrid & Hrenamed & Hname).
      destruct (indexRole_found (common.Roles state) (kc.ID r)) as [Hin Hidx];
        [exists r; split; [by apply Hsame | done] |].
      destruct Hmodel as [Hobs | [Hids | Hnames]].
      + apply Hsame in Hd. by apply (Hobs d Hd).
      + apply Hsame in Hr. rewrite (indexRole_unique _ _ Hids Hr) in Hrenamed. done.
      + apply Hsame in Hin. pose proof (Hnames _ _ Hin Hd Hname) as Heq.
        rewrite Heq in Hidx. congruence.
    - apply Hsame in Hd. apply hasMatchingRole_self in Hd. congruence. }
  assert (roleActions state cr = inPlaceUpdates state cr) as Hlist.
  { unfold roleActions, inPlaceUpdates. rewrite ReconcileRoles_unfold. simpl.
    rewrite (filter_none (λ r, ¬ hasMatchingRole (kc.Roles (kc.Spec cr)) r)).
    2:{ intros o Ho Hno. apply Hno, Is_true_true, hasMatchingRole_self. by apply Hsame. }
    rewrite (filter_all (λ r, Is_true (hasMatchingRole (common.Roles state) r))).
    2:{ intros d Hd. apply Is_true_true, hasMatchingRole_self. by apply Hsame. }
    rewrite (filter_none (λ r, ¬ hasMatchingRole (common.Roles state) r)).
    2:{ intros d Hd Hno. apply Hno, Is_true_true, hasMatchingRole_self. by apply Hsame. }
    rewrite updateActions_fmap, recreateActions_fmap; [by rewrite app_nil_r |].
    intros d Hd Hid Hren.
    apply (Hnocr (getCreatedClientRoleState state cr d) d); [| done].
    apply elem_of_roleActions. right. right. left. exists d.
    split_and!; [done | by apply hasMatchingRole_self, Hsame | done | by left]. }
  split_and!.
  - apply Forall_forall. intros a Ha.
    pose proof (roleActions_isRoleAction state cr) as Hkind.
    rewrite Forall_forall in Hkind. specialize (Hkind a Ha).
    destruct a; try done.
    + by destruct (Hnocr _ Role Ha).
    + by destruct (Hnodel _ Role Ha).
  - destruct (omap createdRole (roleActions state cr)) as [| d l] eqn:Hl; [done |].
    assert (d ∈ omap createdRole (roleActions state cr)) as Hd by (rewrite Hl; left).
    apply list_elem_of_omap in Hd as (a & Ha & Hcr). by destruct (Hnocr a d).
  - destruct (omap deletedRole (roleActions state cr)) as [| o l] eqn:Hl; [done |].
    assert (o ∈ omap deletedRole (roleActions state cr)) as Ho by (rewrite Hl; left).
    apply list_elem_of_omap in Ho as (a & Ha & Hdel). by destruct (Hnodel a o).
  - apply ReconcileRoles_app.
  - exact Hlist.
  - intros desired desired'. rewrite !ReconcileRoles_app, Hlist. by rewrite <- !app_assoc.
  - intros Hids a new old Ha Hup.
    destruct (updatedRole_origin state cr a new old Ha Hup) as (_ & Hnew & _ & Hold).
    destruct Hold as [[_ ->] | (_ & -> & _)]; [| done].
    apply indexRole_unique; [done | by apply Hsame].
Qed.

(** Claim C7.  The partition sends every role of its first argument to
    exactly one of its two results.  An observed role that matches no desired
    role is carried by as many deletions as it has occurrences among the
    observed roles, one when these are pairwise different, and it goes into
    no other action: it is the new payload of no create or update action, and
    no lookup in [existingRoleByID] for a desired role yields it as previous
    role.  (An action that holds a role equal to it is therefore one of its
    deletions, unless it is an update whose lookup failed, which has the zero
    role as previous role.)  A desired role that matches no observed role is
    created as many times as it occurs among the desired roles, once when
    these are pairwise different.  Every desired role is the new payload of
    as many create and update actions as it has occurrences, and a role that
    is not desired is the new payload of none. *)
Theorem ReconcileRoles_partition state cr :
  (∀ a b r,
     occurrences r (roleDifferenceIntersection a b).1 +
     occurrences r (roleDifferenceIntersection a b).2 = occurrences r a ∧
     (r ∈ (roleDifferenceIntersection a b).1 → r ∉ (roleDifferenceIntersection a b).2)) ∧
  (∀ o,
     o ∈ common.Roles state →
     hasMatchingRole (kc.Roles (kc.Spec cr)) o = false →
     occurrences o (omap deletedRole (roleActions state cr)) =
       occurrences o (common.Roles state) ∧
     (NoDup (common.Roles state) →
      occurrences o (omap deletedRole (roleActions state cr)) = 1) ∧
     (∀ a, a ∈ roleActions state cr → newRole a ≠ Some o) ∧
     (∀ d, d ∈ kc.Roles (kc.Spec cr) → kc.ID d ≠ "" →
        existingRoleByID (common.Roles state) !! kc.ID d ≠ Some o) ∧
     (∀ a, a ∈ roleActions state cr → o ∈ rolesOf a →
        deletedRole a = Some o ∨
        (o = kc.zeroRole ∧
         ∃ new, updatedRole a = Some (new, kc.zeroRole) ∧
           existingRoleByID (common.Roles state) !! kc.ID new = None))) ∧
  (∀ d,
     d ∈ kc.Roles (kc.Spec cr) →
     hasMatchingRole (common.Roles state) d = false →
     occurrences d (omap createdRole (roleActions state cr)) =
       occurrences d (kc.Roles (kc.Spec cr)) ∧
     (NoDup (kc.Roles (kc.Spec cr)) →
      occurrences d (omap createdRole (roleActions state cr)) = 1)) ∧
  (∀ d,
     occurrences d (omap newRole (roleActions state cr)) =
       occurrences d (kc.Roles (kc.Spec cr)) ∧
     (NoDup (kc.Roles (kc.Spec cr)) → d ∈ kc.Roles (kc.Spec cr) →
      occurrences d (omap newRole (roleActions state cr)) = 1)).
Proof.
  assert (∀ o, hasMatchingRole (kc.Roles (kc.Spec cr)) o = false →
            occurrences o (omap deletedRole (roleActions state cr)) =
            occurrences o (common.Roles state)) as Hdel.
  { intros o Hno. rewrite deletedRole_roleActions, occurrences_filter.
    rewrite decide_True; [done |]. rewrite Hno. simpl. tauto. }
  assert (∀ d, hasMatchingRole (common.Roles state) d = false →
            occurrences d (omap createdRole (roleActions state cr)) =
            occurrences d (kc.Roles (kc.Spec cr))) as Hcr.
  { intros d Hno. rewrite createdRole_roleActions, occurrences_app, !occurrences_filter.
    rewrite (decide_False (P := Is_true (hasMatchingRole (common.Roles state) d)))
      by (rewrite Hno; simpl; tauto).
    rewrite (decide_True (P := ¬ hasMatchingRole (common.Roles state) d))
      by (rewrite Hno; simpl; tauto).
    by destruct (decide _). }
  assert (∀ d, occurrences d (omap newRole (roleActions state cr)) =
               occurrences d (kc.Roles (kc.Spec cr))) as Hnew.
  { intros d. rewrite newRole_roleActions, !occurrences_app, !occurrences_filter.
    destruct (hasMatchingRole (common.Roles state) d) eqn:Hm.
    - rewrite (decide_True (P := Is_true true)) by done.
      rewrite (decide_False (P := ¬ true)) by (simpl; tauto).
      destruct (decide (kc.ID d = "")) as [Hid | Hid].
      + rewrite (bool_decide_eq_true_2 _ Hid).
        rewrite (bool_decide_eq_false_2 (kc.ID d ≠ "")) by (intros H; by apply H).
        rewrite (decide_True (P := Is_true true)) by done.
        rewrite (decide_False (P := Is_true false)) by (simpl; tauto). lia.
      + rewrite (bool_decide_eq_false_2 _ Hid).
        rewrite (bool_decide_eq_true_2 (kc.ID d ≠ "")) by done.
        rewrite (decide_True (P := Is_true true)) by done.
        rewrite (decide_False (P := Is_true false)) by (simpl; tauto). lia.
    - rewrite (decide_False (P := Is_true false)) by (simpl; tauto).
      rewrite (decide_True (P := ¬ false)) by (simpl; tauto).
      by repeat destruct (decide _). }
  split_and!.
  - intros a b r. rewrite roleDifferenceIntersection_difference,
      roleDifferenceIntersection_intersection, !occurrences_filter.
    split.
    + destruct (hasMatchingRole b r) eqn:Hm.
      * rewrite (decide_False (P := ¬ true)) by (simpl; tauto).
        by rewrite (decide_True (P := Is_true true)) by done.
      * rewrite (decide_True (P := ¬ false)) by (simpl; tauto).
        rewrite (decide_False (P := Is_true false)) by (simpl; tauto). lia.
    + intros H1 H2. apply list_elem_of_filter in H1 as [H1 _].
      apply list_elem_of_filter in H2 as [H2 _]. by apply H1.
  - intros o Ho Hno.
    assert (∀ d, d ∈ kc.Roles (kc.Spec cr) → d ≠ o) as Hfresh.
    { intros d Hd ->. apply hasMatchingRole_self in Hd. congruence. }
    assert (∀ d, d ∈ kc.Roles (kc.Spec cr) → kc.ID d ≠ "" →
              existingRoleByID (common.Roles state) !! kc.ID d ≠ Some o) as Hlookup.
    { intros d Hd Hid Hsome. apply existingRoleByID_Some in Hsome as [_ Hsame].
      apply not_true_iff_false in Hno. apply Hno.
      apply hasMatchingRole_true. exists d. split; [done |].
      apply roleMatches_rule. left. split_and!; [done | by rewrite Hsame | by rewrite Hsame]. }
    split_and!.
    + by apply Hdel.
    + intros Hnd. rewrite Hdel by done. by apply occurrences_NoDup.
    + intros a Ha Hnew'.
      destruct a as [| | | | | | role ? ? ? | role oldRole ? ? ? | role ? ? ?];
        simpl in Hnew'; simplify_eq.
      * destruct (createdRole_origin state cr _ o Ha eq_refl) as (_ & Hd & _).
        by destruct (Hfresh o Hd).
      * destruct (updatedRole_origin state cr _ o oldRole Ha eq_refl) as (_ & Hd & _).
        by destruct (Hfresh o Hd).
    + exact Hlookup.
    + intros a Ha Hin.
      destruct a as [| | | | | | role ? ? ? | role oldRole ? ? ? | role ? ? ?];
        simpl in Hin; try by apply elem_of_nil in Hin.
      * apply list_elem_of_singleton in Hin as ->.
        destruct (createdRole_origin state cr _ role Ha eq_refl) as (_ & Hd & _).
        by destruct (Hfresh role Hd).
      * destruct (updatedRole_origin state cr _ role oldRole Ha eq_refl)
          as (_ & Hd & _ & Hold).
        apply elem_of_cons in Hin as [-> | Hin]; [by destruct (Hfresh role Hd) |].
        apply list_elem_of_singleton in Hin as ->.
        destruct Hold as [[Hid ->] | (_ & -> & _)]; [| by destruct (Hfresh role Hd)].
        destruct (indexRole_cases (common.Roles state) (kc.ID role))
          as [(_ & _ & Hsome) | [Hzero Hnone]].
        -- by destruct (Hlookup role Hd Hid).
        -- right. split; [done |]. exists role. simpl. by rewrite Hzero.
      * apply list_elem_of_singleton in Hin as ->. by left.
  - intros d Hd Hno. split.
    + by apply Hcr.
    + intros Hnd. rewrite Hcr by done. by apply occurrences_NoDup.
  - intros d. split.
    + apply Hnew.
    + intros Hnd Hd. rewrite Hnew. by apply occurrences_NoDup.
Qed.

End Roles.

(** ** The properties on the sample inputs *)




(** The deletion of [{1, a}] is at position 0, the creation of [{2, a}] at
    position 1. *)
Lemma ReconcileRoles_deletes_first_witness :
  roleActions observedA collisionClient !! 0 =
    Some (getDeletedClientRoleState observedA collisionClient (mkRole "1" "a")) ∧
  roleActions observedA collisionClient !! 1 =
    Some (getCreatedClientRoleState observedA collisionClient (mkRole "2" "a")) ∧
  is_Some (deletedRole (getDeletedClientRoleState observedA collisionClient (mkRole "1" "a"))) ∧
  is_Some (newRole (getCreatedClientRoleState observedA collisionClient (mkRole "2" "a"))) ∧
  0 < 1.
Proof.
  assert (is_Some (deletedRole
            (getDeletedClientRoleState observedA collisionClient (mkRole "1" "a")))) as Hdel
    by (by eexists).
  assert (is_Some (newRole
            (getCreatedClientRoleState observedA collisionClient (mkRole "2" "a")))) as Hnew
    by (by eexists).
  split_and!; [reflexivity | reflexivity | exact Hdel | exact Hnew |].
  exact (proj1 (ReconcileRoles_deletes_first observedA collisionClient)
           0 1 _ _ eq_refl eq_refl Hdel Hnew).
Defined.

(** Unchanged roles: the only role action is the update of [{1, a}] from
    itself. *)
Lemma ReconcileRoles_same_roles_only_updates_witness :
  (∀ r, r ∈ kc.Roles (kc.Spec unchangedClient) ↔ r ∈ common.Roles observedA) ∧
  (∀ o, o ∈ common.Roles observedA → kc.ID o ≠ "") ∧
  Forall (λ a, is_Some (updatedRole a)) (roleActions observedA unchangedClient) ∧
  omap createdRole (roleActions observedA unchangedClient) = [] ∧
  omap deletedRole (roleActions observedA unchangedClient) = [] ∧
  roleActions observedA unchangedClient =
    [ getUpdatedClientRoleState observedA unchangedClient (mkRole "1" "a") (mkRole "1" "a") ].
Proof.
  assert (∀ r, r ∈ kc.Roles (kc.Spec unchangedClient) ↔ r ∈ common.Roles observedA) as Hsame
    by done.
  assert (∀ o, o ∈ common.Roles observedA → kc.ID o ≠ "") as Hobs.
  { intros o Ho. apply list_elem_of_singleton in Ho as ->. simpl. discriminate. }
  destruct (ReconcileRoles_same_roles_only_updates observedA unchangedClient Hsame
              (or_introl Hobs)) as (Hupdates & Hcreated & Hdeleted & _ & Hlist & _).
  split_and!; [exact Hsame | exact Hobs | exact Hupdates | exact Hcreated | exact Hdeleted |].
  rewrite Hlist. reflexivity.
Defined.

(** The deleted role [{1, a}] occurs once among the deleted roles and the
    created role [{2, a}] once among the created ones. *)
Lemma ReconcileRoles_partition_witness :
  mkRole "1" "a" ∈ common.Roles observedA ∧
  hasMatchingRole (kc.Roles (kc.Spec collisionClient)) (mkRole "1" "a") = false ∧
  NoDup (common.Roles observedA) ∧
  occurrences (mkRole "1" "a") (omap deletedRole (roleActions observedA collisionClient)) = 1 ∧
  mkRole "2" "a" ∈ kc.Roles (kc.Spec collisionClient) ∧
  hasMatchingRole (common.Roles observedA) (mkRole "2" "a") = false ∧
  NoDup (kc.Roles (kc.Spec collisionClient)) ∧
  occurrences (mkRole "2" "a") (omap createdRole (roleActions observedA collisionClient)) = 1.
Proof.
  assert (mkRole "1" "a" ∈ common.Roles observedA) as Ho by left.
  assert (mkRole "2" "a" ∈ kc.Roles (kc.Spec collisionClient)) as Hd by left.
  assert (NoDup (common.Roles observedA)) as Hndo by apply NoDup_singleton.
  assert (NoDup (kc.Roles (kc.Spec collisionClient))) as Hndd by apply NoDup_singleton.
  destruct (ReconcileRoles_partition observedA collisionClient)
    as (_ & Hdeleted & Hcreated & _).
  destruct (Hdeleted (mkRole "1" "a") Ho eq_refl) as (_ & Honce & _).
  destruct (Hcreated (mkRole "2" "a") Hd eq_refl) as (_ & Hconce).
  split_and!; [exact Ho | reflexivity | exact Hndo | exact (Honce Hndo)
              | exact Hd | reflexivity | exact Hndd | exact (Hconce Hndd)].
Defined.

(** * Further properties of the matcher and of the partition *)

Lemma roleMatches_comm a b : roleMatches a b = roleMatches b a.
Proof.
  apply eq_true_iff_eq. rewrite !roleMatches_rule. unfold matchRule.
  intuition congruence.
Qed.

(** X1.  Matching is reflexive and symmetric, but it is not transitive: a
    role without [ID] matches, by name, two roles whose [ID]s are different
    and which do not match each other. *)
Theorem roleMatches_reflexive_symmetric_not_transitive :
  (∀ a, roleMatches a a = true) ∧
  (∀ a b, roleMatches a b = roleMatches b a) ∧
  (∃ a b c, roleMatches a b = true ∧ roleMatches b c = true ∧ roleMatches a c = false).
Proof.
  split_and!.
  - apply roleMatches_refl.
  - apply roleMatches_comm.
  - by exists (mkRole "1" "a"), (mkRole "" "a"), (mkRole "2" "a").
Qed.

Lemma hasMatchingRole_app_orb l1 l2 r :
  hasMatchingRole (l1 ++ l2) r = hasMatchingRole l1 r || hasMatchingRole l2 r.
Proof.
  induction l1 as [| x l1 IH]; simpl; [done |].
  by destruct (roleMatches x r).
Qed.

(** X2.  The search finds nothing in the empty list, succeeds exactly when
    some role of the list matches, and on a concatenation it succeeds when it
    does on one of the parts. *)
Theorem hasMatchingRole_search :
  (∀ r, hasMatchingRole [] r = false) ∧
  (∀ roles r,
     hasMatchingRole roles r = true ↔ ∃ x, x ∈ roles ∧ roleMatches x r = true) ∧
  (∀ l1 l2 r,
     hasMatchingRole (l1 ++ l2) r = hasMatchingRole l1 r || hasMatchingRole l2 r).
Proof.
  split_and!; [done | apply hasMatchingRole_true | apply hasMatchingRole_app_orb].
Qed.

(** X3.  Among roles that all carry an [ID], a role with an [ID] finds a
    match exactly when its [ID] is one of theirs: names play no part. *)
Theorem hasMatchingRole_by_id roles r :
  (∀ x, x ∈ roles → kc.ID x ≠ "") →
  kc.ID r ≠ "" →
  hasMatchingRole roles r = true ↔ kc.ID r ∈ (kc.ID <$> roles).
Proof.
  intros Hids Hid. rewrite hasMatchingRole_true, list_elem_of_fmap. split.
  - intros (x & Hx & Hm). exists x. split; [| done].
    apply roleMatches_rule in Hm.
    destruct Hm as [(_ & _ & Heq) | ([Hempty | Hempty] & _)]; [done | | done].
    by destruct (Hids x Hx).
  - intros (x & Heq & Hx). exists x. split; [done |].
    apply roleMatches_rule. left. split_and!; [by apply Hids | done | done].
Qed.

(** X4.  A role without [ID] finds a match exactly when its name is the name
    of a role of the list, whether or not that role has an [ID]. *)
Theorem hasMatchingRole_by_name roles r :
  kc.ID r = "" →
  hasMatchingRole roles r = true ↔ kc.Name r ∈ (kc.Name <$> roles).
Proof.
  intros Hid. rewrite hasMatchingRole_true, list_elem_of_fmap. split.
  - intros (x & Hx & Hm). exists x. split; [| done].
    apply roleMatches_rule in Hm.
    destruct Hm as [(_ & Hne & _) | (_ & Hname)]; [done | done].
  - intros (x & Heq & Hx). exists x. split; [done |].
    apply roleMatches_rule. right. split; [by right | done].
Qed.

Lemma hasMatchingRole_by_id_witness :
  (∀ x, x ∈ [mkRole "1" "a"; mkRole "2" "b"] → kc.ID x ≠ "") ∧
  kc.ID (mkRole "2" "z") ≠ "" ∧
  (hasMatchingRole [mkRole "1" "a"; mkRole "2" "b"] (mkRole "2" "z") = true ↔
   kc.ID (mkRole "2" "z") ∈ (kc.ID <$> [mkRole "1" "a"; mkRole "2" "b"])).
Proof.
  assert (∀ x, x ∈ [mkRole "1" "a"; mkRole "2" "b"] → kc.ID x ≠ "") as Hids.
  { intros x Hx. apply elem_of_cons in Hx as [-> | Hx]; [simpl; discriminate |].
    apply list_elem_of_singleton in Hx as ->. simpl. discriminate. }
  assert (kc.ID (mkRole "2" "z") ≠ "") as Hid by (simpl; discriminate).
  split_and!; [exact Hids | exact Hid |].
  exact (hasMatchingRole_by_id [mkRole "1" "a"; mkRole "2" "b"] (mkRole "2" "z") Hids Hid).
Defined.

Lemma hasMatchingRole_by_name_witness :
  kc.ID (mkRole "" "b") = "" ∧
  (hasMatchingRole [mkRole "1" "a"; mkRole "2" "b"] (mkRole "" "b") = true ↔
   kc.Name (mkRole "" "b") ∈ (kc.Name <$> [mkRole "1" "a"; mkRole "2" "b"])).
Proof.
  split; [reflexivity |].
  exact (hasMatchingRole_by_name [mkRole "1" "a"; mkRole "2" "b"] (mkRole "" "b") eq_refl).
Defined.

Lemma roleDifferenceIntersection_filters a b :
  roleDifferenceIntersection a b =
  (filter (λ r, ¬ hasMatchingRole b r) a, filter (λ r, hasMatchingRole b r) a).
Proof. unfold roleDifferenceIntersection. by rewrite roleDifferenceIntersection_foldl. Qed.

(** X5.  The source notes that the returned roles are always from [a]: both
    results keep roles of [a] in the order of [a], the first holds exactly
    the roles of [a] without a match in [b] and the second exactly those with
    one, and together they have as many roles as [a]. *)
Theorem roleDifferenceIntersection_from_a a b :
  (roleDifferenceIntersection a b).1 `sublist_of` a ∧
  (roleDifferenceIntersection a b).2 `sublist_of` a ∧
  (∀ r, r ∈ (roleDifferenceIntersection a b).1 ↔ r ∈ a ∧ hasMatchingRole b r = false) ∧
  (∀ r, r ∈ (roleDifferenceIntersection a b).2 ↔ r ∈ a ∧ hasMatchingRole b r = true) ∧
  length (roleDifferenceIntersection a b).1 + length (roleDifferenceIntersection a b).2 =
    length a.
Proof.
  rewrite roleDifferenceIntersection_filters. simpl. split_and!.
  - apply sublist_filter.
  - apply sublist_filter.
  - intros r. rewrite list_elem_of_filter, Is_true_false. tauto.
  - intros r. rewrite list_elem_of_filter, Is_true_true. tauto.
  - rewrite Nat.add_comm, <- length_app.
    apply Permutation_length.
    apply (filter_app_complement (λ r, Is_true (hasMatchingRole b r))).
Qed.

(** X6.  Against an empty [b] nothing matches and the difference is the
    whole of [a]; an empty [a] gives two empty results. *)
Theorem roleDifferenceIntersection_empty :
  (∀ a, roleDifferenceIntersection a [] = (a, [])) ∧
  (∀ b, roleDifferenceIntersection [] b = ([], [])).
Proof.
  split; [| done].
  intros a. rewrite roleDifferenceIntersection_filters. f_equal.
  - apply filter_all. intros x _. simpl. tauto.
  - apply filter_none. intros x _. simpl. tauto.
Qed.

(** X7.  The partition of a concatenation is the concatenation of the
    partitions: each role is classified on its own. *)
Theorem roleDifferenceIntersection_app a1 a2 b :
  roleDifferenceIntersection (a1 ++ a2) b =
  ((roleDifferenceIntersection a1 b).1 ++ (roleDifferenceIntersection a2 b).1,
   (roleDifferenceIntersection a1 b).2 ++ (roleDifferenceIntersection a2 b).2).
Proof. rewrite !roleDifferenceIntersection_filters. simpl. by rewrite !filter_app. Qed.

(** X8.  Partitioning a result again against the same [b] changes nothing:
    the difference stays wholly unmatched and the intersection wholly
    matched. *)
Theorem roleDifferenceIntersection_again a b :
  roleDifferenceIntersection (roleDifferenceIntersection a b).1 b =
    ((roleDifferenceIntersection a b).1, []) ∧
  roleDifferenceIntersection (roleDifferenceIntersection a b).2 b =
    ([], (roleDifferenceIntersection a b).2).
Proof.
  rewrite !roleDifferenceIntersection_filters. simpl. split; f_equal.
  - apply filter_all. intros x Hx. by apply list_elem_of_filter in Hx as [? _].
  - apply filter_none. intros x Hx. apply list_elem_of_filter in Hx as [Hx _]. tauto.
  - apply filter_none. intros x Hx. apply list_elem_of_filter in Hx as [Hx _]. tauto.
  - apply filter_all. intros x Hx. by apply list_elem_of_filter in Hx as [? _].
Qed.

(** X9.  Matching is mutual: no role of [a] has a match in [b] exactly when
    no role of [b] has a match in [a]. *)
Theorem roleDifferenceIntersection_mutual a b :
  (roleDifferenceIntersection a b).2 = [] ↔ (roleDifferenceIntersection b a).2 = [].
Proof.
  assert (∀ a b, (roleDifferenceIntersection a b).2 = [] →
                 (roleDifferenceIntersection b a).2 = []) as Hone.
  { clear a b. intros a b. rewrite !roleDifferenceIntersection_intersection.
    rewrite !filter_nil_none. intros Hno x Hx Hm.
    apply Is_true_true, hasMatchingRole_true in Hm as (y & Hy & Hmatch).
    apply (Hno y Hy). apply Is_true_true, hasMatchingRole_true.
    exists x. split; [done |]. by rewrite roleMatches_comm. }
  split; apply Hone.
Qed.

(** * Further properties of the reconciliation of roles *)

(** X10.  The index of the observed roles has no entry for an [ID] exactly
    when no observed role carries it; every entry is an observed role with
    that [ID]; and of several roles with one [ID] the last one is kept. *)
Theorem existingRoleByID_last_wins :
  (∀ l id, existingRoleByID l !! id = None ↔ ∀ o, o ∈ l → kc.ID o ≠ id) ∧
  (∀ l id o, existingRoleByID l !! id = Some o → o ∈ l ∧ kc.ID o = id) ∧
  (∀ l1 o l2,
     (∀ x, x ∈ l2 → kc.ID x ≠ kc.ID o) →
     existingRoleByID (l1 ++ o :: l2) !! kc.ID o = Some o).
Proof.
  split_and!.
  - intros l id. rewrite existingRoleByID_lookup, last_None.
    apply (filter_nil_none (λ r, kc.ID r = id)).
  - apply existingRoleByID_Some.
  - intros l1 o l2 Hlater. rewrite existingRoleByID_lookup, filter_app.
    rewrite (filter_cons_True (λ r, kc.ID r = kc.ID o)) by done.
    rewrite (filter_none (λ r, kc.ID r = kc.ID o) l2) by done.
    by rewrite last_snoc.
Qed.

Section RolesFurther.

Context {Secret : Type}.
Implicit Types (state : common.ClientState Secret) (cr : kc.KeycloakClient).
Implicit Types (d o : kc.RoleRepresentation).



Lemma length_filter_split {A} (P Q : A → Prop)
    `{!∀ x, Decision (P x)} `{!∀ x, Decision (Q x)} (l : list A) :
  (∀ x, P x ↔ ¬ Q x) → length (filter P l) + length (filter Q l) = length l.
Proof.
  intros HPQ. induction l as [| x l IH]; [done |].
  destruct (decide (Q x)) as [HQ | HQ].
  - rewrite (filter_cons_False P) by (rewrite HPQ; tauto).
    rewrite (filter_cons_True Q) by done. simpl. lia.
  - rewrite (filter_cons_True P) by (by apply HPQ).
    rewrite (filter_cons_False Q) by done. simpl. lia.
Qed.

Lemma length_omap_split {A B C} (f : A → option B) (g : A → option C) (l : list A) :
  Forall (λ a, (is_Some (f a) ∧ g a = None) ∨ (f a = None ∧ is_Some (g a))) l →
  length l = length (omap f l) + length (omap g l).
Proof.
  induction 1 as [| a l Ha _ IH]; [done |]. csimpl.
  destruct Ha as [[[b Hb] Hg] | [Hf [c Hc]]].
  - rewrite Hb, Hg. simpl. lia.
  - rewrite Hf, Hc. simpl. lia.
Qed.

Lemma length_roleActions state cr :
  length (roleActions state cr) =
  (length (filter (λ r, ¬ hasMatchingRole (kc.Roles (kc.Spec cr)) r) (common.Roles state)) +
   length (kc.Roles (kc.Spec cr)))%nat.
Proof.
  rewrite (length_omap_split deletedRole newRole).
  - rewrite deletedRole_roleActions, newRole_roleActions. f_equal.
    rewrite app_assoc, !length_app.
    rewrite (length_filter_split (λ r, Is_true (bool_decide (kc.ID r ≠ "")))
               (λ r, Is_true (bool_decide (kc.ID r = "")))).
    + apply (length_filter_split
               (λ r, Is_true (hasMatchingRole (common.Roles state) r))
               (λ r, ¬ hasMatchingRole (common.Roles state) r)).
      intros r. destruct (hasMatchingRole (common.Roles state) r); simpl; tauto.
    + intros r. rewrite !bool_decide_spec. tauto.
  - destruct (roleActions_deletes_first state cr) as (dels & rest & -> & Hdels & Hrest).
    apply Forall_app. split.
    + eapply Forall_impl; [exact Hdels |]. intros a [? ?]. by left.
    + eapply Forall_impl; [exact Hrest |]. intros a [? ?]. by right.
Qed.

(** X12.  There is one role action for every desired role and one more for
    every observed role that matches no desired role: never more actions
    than there are roles on the two sides together. *)
Theorem roleActions_length state cr :
  length (roleActions state cr) =
    (length (roleDifferenceIntersection (common.Roles state) (kc.Roles (kc.Spec cr))).1 +
     length (kc.Roles (kc.Spec cr)))%nat ∧
  (length (roleActions state cr) ≤
     length (common.Roles state) + length (kc.Roles (kc.Spec cr)))%nat.
Proof.
  rewrite length_roleActions, roleDifferenceIntersection_difference.
  split; [done |].
  pose proof (length_filter (λ r, ¬ hasMatchingRole (kc.Roles (kc.Spec cr)) r)
                (common.Roles state)). lia.
Qed.

(** X13.  The rule of the source comment for deletions: an observed role
    with an [ID] is deleted exactly when no desired role has its [ID] and no
    desired role without [ID] has its name. *)
Theorem ReconcileRoles_deletion_rule state cr o :
  kc.ID o ≠ "" →
  getDeletedClientRoleState state cr o ∈ roleActions state cr ↔
  o ∈ common.Roles state ∧
  ∀ d, d ∈ kc.Roles (kc.Spec cr) →
    kc.ID d ≠ kc.ID o ∧ (kc.ID d = "" → kc.Name d ≠ kc.Name o).
Proof.
  intros Hid. split.
  - intros Ha. destruct (deletedRole_origin state cr _ o Ha eq_refl) as (_ & Ho & Hno).
    split; [exact Ho |]. intros d Hd.
    rewrite hasMatchingRole_false in Hno. specialize (Hno d Hd).
    apply not_true_iff_false in Hno. rewrite roleMatches_rule in Hno. unfold matchRule in Hno.
    split.
    + intros Heq. apply Hno. left. split_and!; [by rewrite Heq | done | done].
    + intros Hempty Hname. apply Hno. right. split; [by left | done].
  - intros [Ho Hrule]. apply elem_of_roleActions. left. exists o.
    split_and!; [exact Ho | | done].
    apply hasMatchingRole_false. intros d Hd. destruct (Hrule d Hd) as [Hne Hnames].
    apply not_true_iff_false. rewrite roleMatches_rule. unfold matchRule.
    intros [(_ & _ & Heq) | ([Hempty | Hempty] & Hname)]; [done | by apply Hnames | done].
Qed.

(** X14.  A role whose [ID] is kept is neither deleted nor created again:
    when a desired role and an observed role carry the same non-empty [ID],
    no action deletes the observed role and no action creates the desired
    one, whatever their names. *)
Theorem ReconcileRoles_same_id_kept state cr d o :
  d ∈ kc.Roles (kc.Spec cr) →
  o ∈ common.Roles state →
  kc.ID d = kc.ID o →
  kc.ID d ≠ "" →
  (∀ a, a ∈ roleActions state cr → deletedRole a ≠ Some o) ∧
  (∀ a, a ∈ roleActions state cr → createdRole a ≠ Some d).
Proof.
  intros Hd Ho Heq Hid.
  assert (roleMatches o d = true) as Hmatch.
  { apply roleMatches_rule. left. split_and!; [by rewrite <- Heq | done | done]. }
  split.
  - intros a Ha Hdel. destruct (deletedRole_origin state cr a o Ha Hdel) as (_ & _ & Hno).
    rewrite hasMatchingRole_false in Hno. specialize (Hno d Hd).
    rewrite roleMatches_comm in Hno. congruence.
  - intros a Ha Hcr. destruct (createdRole_origin state cr a d Ha Hcr) as (_ & _ & Hcase).
    destruct Hcase as [(_ & Hempty & _) | Hno]; [done |].
    rewrite hasMatchingRole_false in Hno. specialize (Hno o Ho). congruence.
Qed.

(** X15.  When the observed roles carry pairwise different, non-empty [ID]s,
    a name is recorded in [renamedRolesOldNames] exactly when it is the name
    of an observed role whose [ID] is carried by a desired role of another
    name. *)
Theorem renamedRolesOldNames_by_id state cr n :
  (∀ o, o ∈ common.Roles state → kc.ID o ≠ "") →
  NoDup (kc.ID <$> common.Roles state) →
  is_Some (renamedRolesOldNames state cr !! n) ↔
  ∃ d o, d ∈ kc.Roles (kc.Spec cr) ∧ o ∈ common.Roles state ∧
    kc.ID d = kc.ID o ∧ kc.Name o = n ∧ kc.Name d ≠ n.
Proof.
  intros Hobs Hnd. rewrite renamedRolesOldNames_contains. split.
  - intros (r & Hr & Hm & Hid & Hne & Hname).
    assert (∃ x, x ∈ common.Roles state ∧ kc.ID x = kc.ID r) as Hex.
    { apply hasMatchingRole_true in Hm as (x & Hx & Hmx).
      exists x. split; [done |]. apply roleMatches_rule in Hmx.
      destruct Hmx as [(_ & _ & Heq) | ([Hempty | Hempty] & _)]; [done | | done].
      by destruct (Hobs x Hx). }
    destruct (indexRole_found _ _ Hex) as [Hin Hsame].
    eexists r, _. split_and!; [exact Hr | exact Hin | by rewrite Hsame | exact Hname |].
    by rewrite <- Hname.
  - intros (d & o & Hd & Ho & Heq & Hname & Hne).
    assert (kc.ID d ≠ "") as Hid by (rewrite Heq; by apply Hobs).
    exists d. rewrite Heq, (indexRole_unique _ _ Hnd Ho).
    split_and!; [exact Hd | | by rewrite <- Heq | by rewrite Hname | exact Hname].
    apply hasMatchingRole_true. exists o. split; [done |].
    apply roleMatches_rule. left. split_and!; [by apply Hobs | done | done].
Qed.

(** X16.  [ReconcileRoles] keeps the actions it is given, in place, and what
    it appends are actions on roles only. *)
Theorem ReconcileRoles_appends_role_actions state cr
    (desired : common.DesiredClusterState Secret) :
  ∃ acts,
    ReconcileRoles state cr desired = desired ++ acts ∧
    Forall (λ a, isRoleAction a = true ∧ isPing a = false ∧
                 isClientAction a = false ∧ isSecretAction a = false) acts.
Proof.
  exists (roleActions state cr). split; [apply ReconcileRoles_app |].
  eapply Forall_impl; [apply roleActions_isRoleAction |]. by intros [].
Qed.

End RolesFurther.

(** * Further properties of [Reconcile] *)

Section ReconcileFurther.

Context {Secret : Type}.
Variable model_ClientSecret : kc.KeycloakClient → Secret.
Variable model_ClientSecretReconciled : kc.KeycloakClient → option Secret → Secret.
Implicit Types (state : common.ClientState Secret) (cr : kc.KeycloakClient).

Abbreviation Reconcile'' := (Reconcile model_ClientSecret model_ClientSecretReconciled).

(** X17.  When the resource is not being deleted the actions come in the
    order of the source: the ping, then the action on the client, then the
    action on the secret, then the role actions. *)
Theorem Reconcile_order state cr :
  kc.DeletionTimestamp cr = None →
  ∃ c s,
    Reconcile'' state cr = pingKeycloak :: c :: s :: roleActions state cr ∧
    isClientAction c = true ∧ isSecretAction s = true.
Proof.
  intros Hts. rewrite (Reconcile_alive _ _ _ _ Hts).
  eexists _, _. split; [reflexivity |].
  by destruct (common.Client state), (common.ClientSecret state).
Qed.

(** X18.  The result has at least two actions and at most three more than
    there are observed and desired roles together. *)
Theorem Reconcile_length state cr :
  (2 ≤ length (Reconcile model_ClientSecret model_ClientSecretReconciled state cr))%nat ∧
  (length (Reconcile model_ClientSecret model_ClientSecretReconciled state cr) ≤
     3 + length (common.Roles state) + length (kc.Roles (kc.Spec cr)))%nat.
Proof.
  destruct (kc.DeletionTimestamp cr) as [t |] eqn:Hts.
  - unfold Reconcile. rewrite Hts. simpl. lia.
  - rewrite (Reconcile_alive _ _ _ _ Hts), length_app, length_roleActions.
    pose proof (length_filter (λ r, ¬ hasMatchingRole (kc.Roles (kc.Spec cr)) r)
                  (common.Roles state)).
    simpl. lia.
Qed.

(** X19.  Every action on the client or on a role refers to the resource
    being reconciled and to the realm of the observed state, on both paths. *)
Theorem Reconcile_refers_to_resource state cr a :
  a ∈ Reconcile'' state cr →
  isClientAction a = true ∨ isRoleAction a = true →
  clientRef a = Some cr ∧ actionRealm a = Some (common.Realm state).
Proof.
  intros Ha Hkind.
  destruct (kc.DeletionTimestamp cr) as [t |] eqn:Hts.
  - unfold Reconcile in Ha. rewrite Hts in Ha. unfold common.AddAction in Ha. simpl in Ha.
    apply elem_of_cons in Ha as [-> | Ha]; [by destruct Hkind |].
    apply list_elem_of_singleton in Ha as ->. done.
  - rewrite (Reconcile_alive _ _ _ _ Hts) in Ha.
    apply elem_of_app in Ha as [Ha | Ha].
    + apply elem_of_cons in Ha as [-> | Ha]; [by destruct Hkind |].
      apply elem_of_cons in Ha as [-> | Ha]; [by destruct (common.Client state) |].
      apply list_elem_of_singleton in Ha as ->.
      destruct (common.ClientSecret state); by destruct Hkind.
    + apply elem_of_roleActions in Ha.
      destruct Ha as [(o & _ & _ & ->) | [(d & _ & _ & _ & ->) |
        [(d & _ & _ & _ & [[_ ->] | [_ ->]]) | (d & _ & _ & ->)]]]; done.
Qed.

End ReconcileFurther.

(** * Renames *)

Section Renames.

Context {Secret : Type}.
Implicit Types (state : common.ClientState Secret) (cr : kc.KeycloakClient).
Implicit Types (d o r : kc.RoleRepresentation).

(** The role actions in two groups: the deletions and the updates of roles
    with an [ID], then the actions on matched roles without [ID] and the
    creations of the unmatched roles. *)
Lemma roleActions_groups state cr :
  ∃ front back,
    roleActions state cr = front ++ back ∧
    Forall (λ a, createdRole a = None ∧ ∀ d, newRole a = Some d → kc.ID d ≠ "") front ∧
    Forall (λ a, ∀ r old, updatedRole a = Some (r, old) → kc.ID r = "") back.
Proof.
  unfold roleActions. rewrite ReconcileRoles_unfold. simpl. rewrite app_assoc.
  eexists _, _. split; [reflexivity |]. split.
  - apply Forall_app. split.
    + apply Forall_fmap, Forall_forall. intros o _. simpl. by split.
    + apply Forall_forall. intros a Ha. apply elem_of_updateActions in Ha.
      destruct Ha as (r & _ & Hid & ->). simpl. split; [done |]. by intros d [= <-].
  - apply Forall_app. split.
    + apply Forall_forall. intros a Ha. apply elem_of_recreateActions in Ha.
      destruct Ha as (r & _ & Hid & [[_ ->] | [_ ->]]); simpl; [done |].
      by intros r' old [= <- _].
    + apply Forall_fmap, Forall_forall. intros o _. by simpl.
Qed.

(** X20.  Every update of a role with an [ID], and so every rename, stands
    before every creation and before every action on a role without [ID]: a
    name is freed before the action that uses it again. *)
Theorem ReconcileRoles_renames_before_reuse state cr i j a b :
  roleActions state cr !! i = Some a →
  roleActions state cr !! j = Some b →
  (∃ r old, updatedRole a = Some (r, old) ∧ kc.ID r ≠ "") →
  (is_Some (createdRole b) ∨ ∃ d, newRole b = Some d ∧ kc.ID d = "") →
  i < j.
Proof.
  destruct (roleActions_groups state cr) as (front & back & -> & Hfront & Hback).
  intros Hi Hj (r & old & Hup & Hid) Hb.
  assert (i < length front) as Hilt.
  { destruct (decide (i < length front)) as [| Hge]; [done |].
    rewrite lookup_app_r in Hi by lia. apply list_elem_of_lookup_2 in Hi.
    rewrite Forall_forall in Hback. by destruct Hid, (Hback a Hi r old Hup). }
  destruct (decide (j < length front)) as [Hjlt | Hge]; [| lia].
  rewrite lookup_app_l in Hj by done. apply list_elem_of_lookup_2 in Hj.
  rewrite Forall_forall in Hfront. destruct (Hfront b Hj) as [Hnocr Hids].
  destruct Hb as [[x Hx] | (d & Hd & Hempty)]; [congruence |].
  by destruct (Hids d Hd).
Qed.



End Renames.

(** * The further properties on the sample inputs *)

Lemma observedA_ids : ∀ x, x ∈ common.Roles observedA → kc.ID x ≠ "".
Proof. intros x Hx. apply list_elem_of_singleton in Hx as ->. simpl. discriminate. Qed.

(** Of two roles with the [ID] 1 the later one is indexed. *)
Lemma existingRoleByID_last_wins_witness :
  (∀ x, x ∈ [mkRole "2" "c"] → kc.ID x ≠ kc.ID (mkRole "1" "b")) ∧
  existingRoleByID ([mkRole "1" "a"] ++ mkRole "1" "b" :: [mkRole "2" "c"]) !! "1" =
    Some (mkRole "1" "b").
Proof.
  assert (∀ x, x ∈ [mkRole "2" "c"] → kc.ID x ≠ kc.ID (mkRole "1" "b")) as Hlater.
  { intros x Hx. apply list_elem_of_singleton in Hx as ->. simpl. discriminate. }
  split; [exact Hlater |].
  exact (proj2 (proj2 existingRoleByID_last_wins)
           [mkRole "1" "a"] (mkRole "1" "b") [mkRole "2" "c"] Hlater).
Defined.


(** [{1, a}] is deleted when the only desired role is [{2, a}]. *)
Lemma ReconcileRoles_deletion_rule_witness :
  kc.ID (mkRole "1" "a") ≠ "" ∧
  mkRole "1" "a" ∈ common.Roles observedA ∧
  (∀ d, d ∈ kc.Roles (kc.Spec collisionClient) →
     kc.ID d ≠ kc.ID (mkRole "1" "a") ∧
     (kc.ID d = "" → kc.Name d ≠ kc.Name (mkRole "1" "a"))) ∧
  getDeletedClientRoleState observedA collisionClient (mkRole "1" "a") ∈
    roleActions observedA collisionClient.
Proof.
  assert (kc.ID (mkRole "1" "a") ≠ "") as Hid by (simpl; discriminate).
  assert (mkRole "1" "a" ∈ common.Roles observedA) as Ho by left.
  assert (∀ d, d ∈ kc.Roles (kc.Spec collisionClient) →
            kc.ID d ≠ kc.ID (mkRole "1" "a") ∧
            (kc.ID d = "" → kc.Name d ≠ kc.Name (mkRole "1" "a"))) as Hrule.
  { intros d Hd. apply list_elem_of_singleton in Hd as ->. simpl. split; discriminate. }
  split_and!; [exact Hid | exact Ho | exact Hrule |].
  exact (proj2 (ReconcileRoles_deletion_rule observedA collisionClient (mkRole "1" "a") Hid)
           (conj Ho Hrule)).
Defined.

(** The renamed role [{1, b}] is not created and [{1, a}] is not deleted. *)
Lemma ReconcileRoles_same_id_kept_witness :
  mkRole "1" "b" ∈ kc.Roles (kc.Spec renameClient) ∧
  mkRole "1" "a" ∈ common.Roles observedA ∧
  kc.ID (mkRole "1" "b") = kc.ID (mkRole "1" "a") ∧
  kc.ID (mkRole "1" "b") ≠ "" ∧
  (∀ a, a ∈ roleActions observedA renameClient → deletedRole a ≠ Some (mkRole "1" "a")) ∧
  (∀ a, a ∈ roleActions observedA renameClient → createdRole a ≠ Some (mkRole "1" "b")).
Proof.
  assert (mkRole "1" "b" ∈ kc.Roles (kc.Spec renameClient)) as Hd by left.
  assert (mkRole "1" "a" ∈ common.Roles observedA) as Ho by left.
  assert (kc.ID (mkRole "1" "b") ≠ "") as Hid by (simpl; discriminate).
  destruct (ReconcileRoles_same_id_kept observedA renameClient
              (mkRole "1" "b") (mkRole "1" "a") Hd Ho eq_refl Hid) as [Hdel Hcr].
  by split_and!.
Defined.

(** The rename of [{1, a}] to [b] records the name [a]. *)
Lemma renamedRolesOldNames_by_id_witness :
  (∀ o, o ∈ common.Roles observedA → kc.ID o ≠ "") ∧
  NoDup (kc.ID <$> common.Roles observedA) ∧
  is_Some (renamedRolesOldNames observedA renameClient !! "a").
Proof.
  assert (NoDup (kc.ID <$> common.Roles observedA)) as Hnd by apply NoDup_singleton.
  split_and!; [exact observedA_ids | exact Hnd |].
  apply (proj2 (renamedRolesOldNames_by_id observedA renameClient "a" observedA_ids Hnd)).
  exists (mkRole "1" "b"), (mkRole "1" "a").
  split_and!; [left | left | reflexivity | reflexivity | simpl; discriminate].
Defined.

(** The normal path on the rename: ping, update of the client, update of the
    secret, then the role actions. *)
Lemma Reconcile_order_witness :
  kc.DeletionTimestamp renameClient = None ∧
  ∃ c s,
    Reconcile sampleSecret sampleSecretReconciled observedA renameClient =
      pingKeycloak :: c :: s :: roleActions observedA renameClient ∧
    isClientAction c = true ∧ isSecretAction s = true.
Proof.
  split; [reflexivity |].
  exact (Reconcile_order sampleSecret sampleSecretReconciled observedA renameClient eq_refl).
Defined.

(** The creation of [{2, a}] refers to the sample resource and realm. *)
Lemma Reconcile_refers_to_resource_witness :
  getCreatedClientRoleState observedA collisionClient (mkRole "2" "a") ∈
    Reconcile sampleSecret sampleSecretReconciled observedA collisionClient ∧
  clientRef (getCreatedClientRoleState observedA collisionClient (mkRole "2" "a")) =
    Some collisionClient ∧
  actionRealm (getCreatedClientRoleState observedA collisionClient (mkRole "2" "a")) =
    Some "main".
Proof.
  assert (getCreatedClientRoleState observedA collisionClient (mkRole "2" "a") ∈
            Reconcile sampleSecret sampleSecretReconciled observedA collisionClient) as Hin.
  { do 4 right. left. }
  split; [exact Hin |].
  exact (Reconcile_refers_to_resource sampleSecret sampleSecretReconciled
           observedA collisionClient _ Hin (or_intror eq_refl)).
Defined.

(** The rename of [{1, a}] is at position 0, the creation of the new role
    named [a] at position 1. *)
Lemma ReconcileRoles_renames_before_reuse_witness :
  roleActions observedA renameReuseClient !! 0 =
    Some (getUpdatedClientRoleState observedA renameReuseClient
            (mkRole "1" "b") (mkRole "1" "a")) ∧
  roleActions observedA renameReuseClient !! 1 =
    Some (getCreatedClientRoleState observedA renameReuseClient (mkRole "" "a")) ∧
  0 < 1.
Proof.
  split_and!; [reflexivity | reflexivity |].
  apply (ReconcileRoles_renames_before_reuse observedA renameReuseClient 0 1
           (getUpdatedClientRoleState observedA renameReuseClient
              (mkRole "1" "b") (mkRole "1" "a"))
           (getCreatedClientRoleState observedA renameReuseClient (mkRole "" "a"))
           eq_refl eq_refl).
  - exists (mkRole "1" "b"), (mkRole "1" "a"). split; [reflexivity | simpl; discriminate].
  - left. by eexists.
Defined.


